(** * Signal_Processing_Project: the DSP core of the two applications

    Shallow embedding of the signal-processing functions of
    [Signal_Processigng/PCB_signal_processing_2.py] and
    [Signal_Processigng/Audio_signal_processing.py]:
    signal synthesis ([generate_signal]), noise injection ([add_noise]),
    filter design and application ([butter_lowpass], [butter_highpass],
    [butter_bandstop], [apply_filter], [butter_filter], [apply_high_pass],
    [apply_low_pass], [apply_band_pass]) and the spectrum computed inside
    [SignalProcessorApp.process_signal]; further the notch filter
    ([apply_notch_filter]), the callback [process_signal] of the PCB
    application as a whole, and the callbacks [load_audio], [process_audio]
    and [play_audio] of the audio application over its attributes.

    Conventions.
    - A NumPy array of samples is a [list R]; Python floats are idealised
      as real numbers, so every statement below is about exact arithmetic.
      Where a rounded result changes what a call does, the binary64 bound
      is part of the model: [np.random.uniform] refuses a range that
      overflows ([float_overflow]).
    - A Python exception is a value of [exn]; a call that may raise returns
      a [result].
    - NumPy's global random state is threaded explicitly through
      [add_noise].
    - The functions of NumPy and SciPy that the sources call are modelled
      after their documented behaviour in the modules [np] and in the
      definitions [butter], [lfilter], [fft] and [fftfreq].  The rounded
      coefficients of the Butterworth design are left abstract; where the
      design puts the poles, in exact arithmetic, is [butter_poles]. *)

From Stdlib Require Import Reals Lra Lia List String ZArith Bool.
Import ListNotations.

#[local] Open Scope R_scope.

(** ** Exceptions and fallible results *)

Inductive exn : Type :=
| ValueError (msg : string)
| ZeroDivisionError (msg : string)
| IndexError (msg : string)
| OverflowError (msg : string).

Inductive result (A : Type) : Type :=
| Ok (a : A)
| Raise (e : exn).

Arguments Ok {A} a.
Arguments Raise {A} e.

Definition bind {A B : Type} (m : result A) (k : A -> result B) : result B :=
  match m with
  | Ok a => k a
  | Raise e => Raise e
  end.

Notation "x <- m ;; k" := (bind m (fun x => k))
  (at level 61, m at next level, right associativity).
Notation "' p <- m ;; k" := (bind m (fun x => match x with p => k end))
  (at level 61, p pattern, m at next level, right associativity).

Definition succeeds {A : Type} (m : result A) : Prop :=
  exists a, m = Ok a.

Definition raises {A : Type} (m : result A) : Prop :=
  exists e, m = Raise e.

(** Decidable comparisons on samples, as booleans. *)

Definition Rltb (x y : R) : bool := if Rlt_dec x y then true else false.
Definition Rleb (x y : R) : bool := if Rle_dec x y then true else false.
Definition Reqb (x y : R) : bool := if Req_dec_T x y then true else false.

(** Python's float division: [x / y] raises on a zero divisor. *)

Definition py_div (x y : R) : result R :=
  if Reqb y 0 then Raise (ZeroDivisionError "float division by zero")
  else Ok (x / y).

(** ** The range of binary64

    A result of magnitude [2^1024 - 2^970] or more rounds to an infinity;
    every double below it in magnitude is finite.  [smallest_normal] is the
    least positive normal double, [2^-1022]. *)

Definition float_overflow : R :=
  IZR (Z.pow_pos 2 1024) - IZR (Z.pow_pos 2 970).

Definition smallest_normal : R := / IZR (Z.pow_pos 2 1022).

(** ** The random source

    [np.random] draws from a hidden generator.  The generator is a state
    [rng] with three primitive draws: a standard normal deviate, a uniform
    deviate of [[0, 1)] and a raw unsigned integer. *)

Class RandomState (rng : Type) : Type := {
  next_gauss : rng -> R * rng;
  next_double : rng -> R * rng;
  next_uint : rng -> nat * rng
}.

Fixpoint draws {rng A : Type} (next : rng -> A * rng) (n : nat) (g : rng)
  : list A * rng :=
  match n with
  | O => ([], g)
  | S n' =>
      let (x, g1) := next g in
      let (xs, g2) := draws next n' g1 in
      (x :: xs, g2)
  end.

(** ** NumPy *)

Module np.

Definition pi : R := PI.

(** [np.sign]: -1, 0 or 1. *)
Definition sign (x : R) : R :=
  if Rltb x 0 then -1 else if Rltb 0 x then 1 else 0.

(** [np.floor], as a real. *)
Definition floor (x : R) : R := IZR (Zfloor x).

Definition zeros (n : nat) : list R := repeat 0 n.

(** [np.arange(n)] as floats: 0, 1, ..., n-1. *)
Definition arange (n : nat) : list R := map INR (seq 0 n).

(** Elementwise [x + y] of two arrays of one length. *)
Fixpoint add (x y : list R) : list R :=
  match x, y with
  | a :: x', b :: y' => (a + b) :: add x' y'
  | _, _ => []
  end.

(** [arr[i] = v]: an index outside the array raises [IndexError]. *)
Fixpoint setitem (arr : list R) (i : nat) (v : R) : result (list R) :=
  match arr, i with
  | [], _ => Raise (IndexError "index out of bounds")
  | _ :: arr', O => Ok (v :: arr')
  | a :: arr', S i' => arr'' <- setitem arr' i' v ;; Ok (a :: arr'')
  end.

(** [arr[indices] = values]: the assignments are done in order, so a
    later duplicate index overwrites an earlier one. *)
Fixpoint setitems (arr : list R) (indices : list nat) (values : list R)
  : result (list R) :=
  match indices, values with
  | i :: indices', v :: values' =>
      arr' <- setitem arr i v ;; setitems arr' indices' values'
  | _, _ => Ok arr
  end.

Module random.
Section Draws.
Context {rng : Type} `{RandomState rng}.

(** [np.random.normal(loc, scale, size)]: a negative [scale] is
    refused before anything is drawn. *)
Definition normal (loc scale : R) (size : nat) (g : rng)
  : result (list R * rng) :=
  if Rltb scale 0 then Raise (ValueError "scale < 0")
  else
    let (zs, g') := draws next_gauss size g in
    Ok (map (fun z => loc + scale * z) zs, g').

(** [np.random.randint(low, high, size)] with [low = 0]: [size]
    integers of [[0, high)].  An empty request returns the empty
    array before the bounds are looked at. *)
Definition randint (high : nat) (size : nat) (g : rng)
  : result (list nat * rng) :=
  match size with
  | O => Ok ([], g)
  | S _ =>
      if (high =? 0)%nat then Raise (ValueError "low >= high")
      else
        let (us, g') := draws next_uint size g in
        Ok (map (fun u => Nat.modulo u high) us, g')
  end.

(** [np.random.uniform(low, high, size)]: the range [high - low] is
    computed first and a range that is not finite is refused, whatever
    the size; then [size] values [low + range * u] are drawn.  A bound
    that is itself infinite gives an infinite range, so the test on the
    exact difference covers the bounds that overflowed when the caller
    computed them. *)
Definition uniform (low high : R) (size : nat) (g : rng)
  : result (list R * rng) :=
  if Rleb float_overflow (Rabs (high - low)) then
    Raise (OverflowError "Range exceeds valid bounds")
  else
    let (us, g') := draws next_double size g in
    Ok (map (fun u => low + (high - low) * u) us, g').

(** [np.random.uniform(low, high)]: one draw, after the same test. *)
Definition uniform1 (low high : R) (g : rng) : result (R * rng) :=
  if Rleb float_overflow (Rabs (high - low)) then
    Raise (OverflowError "Range exceeds valid bounds")
  else
    let (u, g') := next_double g in
    Ok (low + (high - low) * u, g').
End Draws.
End random.

End np.

(** ** PCB_signal_processing_2.py: signal synthesis

    The samples are the exact values of the expressions of the source.
    The floats of a run are these values rounded, and two kinds are not
    continuous in them: [np.sign] of a rounded sine is 1 or -1 where the
    exact sine is 0, and [np.floor(0.5 + t * frequency)] is off by one
    where the rounded sum reaches the next integer (just below a half,
    and for products beyond [2^52]), which moves the sawtooth sample by 2.
    Statements on the values of these two kinds are statements on the
    exact expressions. *)

Definition generate_signal (signal_type : string) (frequency : R)
  (time : list R) : list R :=
  if (signal_type =? "sine")%string then
    map (fun t => sin (2 * np.pi * frequency * t)) time
  else if (signal_type =? "square")%string then
    map (fun t => np.sign (sin (2 * np.pi * frequency * t))) time
  else if (signal_type =? "sawtooth")%string then
    map (fun t => 2 * (t * frequency - np.floor (0.5 + t * frequency))) time
  else if (signal_type =? "modulated")%string then
    let carrier_freq := 10 in
    let modulator_freq := 0.5 in
    map (fun t => sin (2 * np.pi * carrier_freq * t)
                  * sin (2 * np.pi * modulator_freq * t)) time
  else
    map (fun t => sin (2 * np.pi * frequency * t)) time.

(** ** PCB_signal_processing_2.py: noise injection *)

(** [int(x)] of a float: truncation toward zero. *)
Definition py_int (x : R) : Z :=
  if Rltb x 0 then (- Zfloor (- x))%Z else Zfloor x.

Section Noise.
Context {rng : Type} `{RandomState rng}.

Definition add_noise (signal : list R) (noise_type : string)
  (intensity : R) (g : rng) : result (list R * rng) :=
  let n := List.length signal in
  '(noise, g') <-
    (if (noise_type =? "gaussian")%string then
       np.random.normal 0 intensity n g
     else if (noise_type =? "impulse")%string then
       let noise := np.zeros n in
       let num_impulses := Z.to_nat (py_int (0.05 * INR n)) in
       '(impulse_indices, g1) <- np.random.randint n num_impulses g ;;
       '(values, g2) <-
         np.random.uniform (- intensity * 2) (intensity * 2)
           num_impulses g1 ;;
       noise' <- np.setitems noise impulse_indices values ;;
       Ok (noise', g2)
     else if (noise_type =? "frequency_interference")%string then
       '(interference_freq, g1) <- np.random.uniform1 0.5 5 g ;;
       Ok (map (fun k => intensity * sin (2 * np.pi * interference_freq * k))
             (np.arange n), g1)
     else
       Ok (np.zeros n, g)) ;;
  Ok (np.add signal noise, g').
End Noise.

(** ** SciPy: Butterworth design and the recursive filter *)

(** The [btype] strings the sources pass to [butter]:
    ['low'], ['high'] and ['bandstop']. *)
Inductive btype : Type := Low | High | Bandstop.

(** [scipy.signal.lfilter(b, a, x)] without initial conditions.  Its
    recursive path, [linear_filter], is the transposed direct form II with
    a zero initial state: both coefficient lists are padded to one length
    and divided by [a[0]]; a zero [a[0]] is refused.  [df2t_state] is the
    update of the delay line after the sample [xn] produced the output
    [yn]; its arguments [b] and [a] are the normalised lists.  With a
    denominator of one coefficient [lfilter] convolves instead, which
    gives the same samples, except that [np.convolve] refuses an empty
    input.  (On that path a zero [a[0]] gives non-finite samples, which
    have no value here; the model refuses it as the recursive path
    does.) *)

Definition pad (n : nat) (l : list R) : list R :=
  l ++ repeat 0 (n - List.length l).

Definition df2t_state (b a z : list R) (xn yn : R) : list R :=
  map (fun '(zk, (bk, ak)) => zk + xn * bk - yn * ak)
    (combine (tl z ++ [0]) (combine (tl b) (tl a))).

Fixpoint df2t (b a z x : list R) : list R :=
  match x with
  | [] => []
  | xn :: x' =>
      let yn := hd 0 z + hd 0 b * xn in
      yn :: df2t b a (df2t_state b a z xn yn) x'
  end.

Definition linear_filter (b a x : list R) : result (list R) :=
  match a with
  | [] => Raise (ValueError "a must not be empty")
  | a0 :: _ =>
      if Reqb a0 0 then
        Raise (ValueError "filter coefficient a[0] == 0 not supported yet")
      else
        let K := Nat.max (List.length a) (List.length b) in
        let b' := map (fun c => c / a0) (pad K b) in
        let a' := map (fun c => c / a0) (pad K a) in
        Ok (df2t b' a' (repeat 0 (K - 1)) x)
  end.

Definition lfilter (b a x : list R) : result (list R) :=
  match a, x with
  | [_], [] => Raise (ValueError "v cannot be empty")
  | _, _ => linear_filter b a x
  end.

(** ** SciPy: the discrete Fourier transform *)

Definition complex : Type := (R * R)%type.

Definition cadd (u v : complex) : complex :=
  (fst u + fst v, snd u + snd v).

Definition cscale (x : R) (u : complex) : complex :=
  (x * fst u, x * snd u).

(** [exp(i * theta)]. *)
Definition cis (theta : R) : complex := (cos theta, sin theta).

(** [np.abs] of a complex number. *)
Definition cabs (u : complex) : R :=
  sqrt (fst u * fst u + snd u * snd u).

(** The [k]-th coefficient of the discrete Fourier transform of [x]:
    the sum over [n] of [x[n] * exp(-2 pi i k n / N)]. *)
Definition dft_coefficient (x : list R) (k : nat) : complex :=
  let N := List.length x in
  fold_right cadd (0, 0)
    (map (fun '(n, xn) => cscale xn (cis (- (2 * PI * INR k * INR n / INR N))))
       (combine (seq 0 N) x)).

(** [scipy.fft.fft(x)] of a one-dimensional array: the [N] coefficients;
    an empty array is refused. *)
Definition fft (x : list R) : result (list complex) :=
  match x with
  | [] => Raise (ValueError "invalid number of data points (0) specified")
  | _ :: _ => Ok (map (dft_coefficient x) (seq 0 (List.length x)))
  end.

(** [arange(lo, hi)] over the integers. *)
Definition zrange (lo hi : Z) : list Z :=
  map (fun i => (lo + Z.of_nat i)%Z) (seq 0 (Z.to_nat (hi - lo))).

(** [scipy.fft.fftfreq(n, d)]: the integers [0 .. (n-1)//2] followed by
    [-(n//2) .. -1], each times [1.0 / (n * d)]. *)
Definition fftfreq (n : nat) (d : R) : result (list R) :=
  val <- py_div 1 (INR n * d) ;;
  let N := ((Z.of_nat n - 1) / 2 + 1)%Z in
  let p1 := zrange 0 N in
  let p2 := zrange (- (Z.of_nat n / 2)) 0 in
  Ok (map (fun k => IZR k * val) (p1 ++ p2)).

Section Filters.

(** The numerical design of [scipy.signal.butter] (analog prototype,
    frequency transformation, bilinear transform, expansion of the
    polynomials), left abstract: for a band type, an order and the
    validated critical frequencies it gives the numerator [b] and the
    denominator coefficients after the leading one.  The denominator comes
    out of [np.poly] and is monic, so [butter] returns [1 :: a_tail]. *)
Variable butter_design : btype -> nat -> list R -> list R * list R.

(** The number of poles of the digital filter: the order, doubled by the
    band transformation. *)
Definition design_degree (bt : btype) (N : nat) : nat :=
  match bt with
  | Bandstop => (2 * N)%nat
  | Low | High => N
  end.

(** The first [n] coefficients of [l], with zeros where [l] is shorter. *)
Definition fit (n : nat) (l : list R) : list R :=
  firstn n (l ++ repeat 0 n).

(** The coefficients [butter] returns for accepted critical frequencies:
    those of the design, with the leading 1 of the denominator.  Numerator
    and denominator are the expansions of as many zeros and poles as the
    degree, so each has one coefficient more than the degree. *)
Definition designed (bt : btype) (N : nat) (Wn : list R) : list R * list R :=
  let n := design_degree bt N in
  (fit (S n) (fst (butter_design bt N Wn)),
   1 :: fit n (snd (butter_design bt N Wn))).

(** [scipy.signal.butter(N, Wn, btype, analog=False)] with the default
    [output='ba']: the checks of [iirfilter] on the critical frequencies,
    in their order, then the design.  A scalar [Wn] is the one-element
    list. *)
Definition butter (N : nat) (Wn : list R) (bt : btype)
  : result (list R * list R) :=
  if existsb (fun w => Rleb w 0) Wn then
    Raise (ValueError "filter critical frequencies must be greater than 0")
  else if match Wn with
          | w0 :: w1 :: _ => negb (Rltb w0 w1)
          | _ => false
          end then
    Raise (ValueError "Wn[0] must be less than Wn[1]")
  else if existsb (fun w => Rleb 1 w) Wn then
    Raise (ValueError "Digital filter critical frequencies must be 0 < Wn < 1")
  else
    match bt, Wn with
    | Low, [_] | High, [_] | Bandstop, [_; _] => Ok (designed bt N Wn)
    | Low, _ | High, _ =>
        Raise (ValueError "Must specify a single critical frequency Wn for lowpass or highpass filter")
    | Bandstop, _ =>
        Raise (ValueError "Wn must specify start and stop frequencies for bandpass or bandstop filter")
    end.

(** ** PCB_signal_processing_2.py: filters *)

Definition butter_lowpass (cutoff fs : R) (order : nat)
  : result (list R * list R) :=
  let nyquist := 0.5 * fs in
  normal_cutoff <- py_div cutoff nyquist ;;
  butter order [normal_cutoff] Low.

Definition butter_highpass (cutoff fs : R) (order : nat)
  : result (list R * list R) :=
  let nyquist := 0.5 * fs in
  normal_cutoff <- py_div cutoff nyquist ;;
  butter order [normal_cutoff] High.

Definition butter_bandstop (lowcut highcut fs : R) (order : nat)
  : result (list R * list R) :=
  let nyquist := 0.5 * fs in
  low <- py_div lowcut nyquist ;;
  high <- py_div highcut nyquist ;;
  butter order [low; high] Bandstop.

Definition apply_filter (signal : list R) (filter_type : string)
  (cutoff fs : R) : result (list R) :=
  '(b, a) <-
    (if (filter_type =? "Low-Pass (RC)")%string then
       butter_lowpass cutoff fs 5
     else if (filter_type =? "High-Pass (RC)")%string then
       butter_highpass cutoff fs 5
     else if (filter_type =? "Band-Stop")%string then
       butter_bandstop 0.5 5 fs 5
     else
       Raise (ValueError "Unknown filter type.")) ;;
  lfilter b a signal.

(** ** Audio_signal_processing.py: filters *)

Definition butter_filter (order : nat) (cutoff fs : R) (bt : btype)
  : result (list R * list R) :=
  let nyquist := 0.5 * fs in
  normal_cutoff <- py_div cutoff nyquist ;;
  butter order [normal_cutoff] bt.

Definition apply_high_pass (signal : list R) (cutoff fs : R)
  : result (list R) :=
  '(b, a) <- butter_filter 4 cutoff fs High ;;
  lfilter b a signal.

Definition apply_low_pass (signal : list R) (cutoff fs : R)
  : result (list R) :=
  '(b, a) <- butter_filter 4 cutoff fs Low ;;
  lfilter b a signal.

Definition apply_band_pass (signal : list R) (lowcut highcut fs : R)
  : result (list R) :=
  '(b_low, a_low) <- butter_filter 4 highcut fs Low ;;
  '(b_high, a_high) <- butter_filter 4 lowcut fs High ;;
  low_passed <- lfilter b_low a_low signal ;;
  band_passed <- lfilter b_high a_high low_passed ;;
  Ok band_passed.

(** ** PCB_signal_processing_2.py: the spectrum of [process_signal]

    The statements of [SignalProcessorApp.process_signal] that compute the
    two arrays handed to the FFT plot: the frequency axis [xf] and the
    magnitudes [2.0/N * np.abs(yf[:N//2])].  [fs] is the local variable of
    the method, which the source sets to 100. *)

Definition process_signal_fft (signal : list R) (fs : R)
  : result (list R * list R) :=
  let N := List.length signal in
  T <- py_div 1 fs ;;
  yf <- fft signal ;;
  freqs <- fftfreq N T ;;
  let xf := firstn (N / 2) freqs in
  scale <- py_div 2 (INR N) ;;
  Ok (xf, map (fun c => scale * cabs c) (firstn (N / 2) yf)).

Definition process_signal_fs : R := 100.

(** The band-pass as the specification words it: the low-pass stage at the
    high cutoff, then the high-pass stage at the low cutoff applied to the
    intermediate buffer. *)
Definition band_pass_cascade (signal : list R) (lowcut highcut fs : R)
  : result (list R) :=
  low_passed <- apply_low_pass signal highcut fs ;;
  apply_high_pass low_passed lowcut fs.

End Filters.

(** ** SciPy: where the Butterworth design puts the poles

    [scipy.signal.butter] computes the poles in closed form before it
    expands them into the denominator.  [buttap] gives the [N] poles
    [-exp(i pi m / (2 N))], for [m = -N+1, -N+3, ..., N-1], of the analog
    prototype; the critical frequencies are pre-warped for the sample rate
    2 of the design, [warped = 2 * fs * tan(pi * Wn / fs)]; [lp2lp_zpk],
    [lp2hp_zpk] and [lp2bs_zpk] move the prototype to them; [bilinear_zpk]
    maps each pole [p] to [(fs2 + p) / (fs2 - p)] with [fs2 = 2 * fs];
    [zpk2tf] takes the denominator from [np.poly], the coefficients of the
    product of the factors [z - p], highest power first.  The functions
    below are these steps in exact arithmetic, on the poles. *)


















(** ** The kinds each dispatcher recognises *)

Definition signal_types : list string :=
  ["sine"; "square"; "sawtooth"; "modulated"]%string.

Definition noise_types : list string :=
  ["gaussian"; "impulse"; "frequency_interference"]%string.

Definition filter_types : list string :=
  ["Low-Pass (RC)"; "High-Pass (RC)"; "Band-Stop"]%string.

(** A cutoff normalised by the Nyquist frequency, as the design functions
    compute it. *)
Definition normalized (cutoff fs : R) : R := cutoff / (0.5 * fs).

(** A filter request of [apply_filter] whose design is accepted: a positive
    sample rate and the cutoff the branch uses below the Nyquist frequency
    (the band-stop branch uses its own 0.5 Hz and 5 Hz). *)
Definition valid_filter_spec (filter_type : string) (cutoff fs : R) : Prop :=
  0 < fs /\
  if (filter_type =? "Band-Stop")%string then 5 < 0.5 * fs
  else 0 < cutoff < 0.5 * fs.

(** The filter requests of [apply_filter] that underflow does not touch:
    the Nyquist frequency [0.5 * fs] is not subnormal, so it is exact, and
    the quotient of the cutoff by it is not below the least normal double,
    so it is not rounded to zero.  The band-stop branch divides its own
    0.5 Hz and 5 Hz. *)
Definition normalisation_in_range (filter_type : string) (cutoff fs : R)
  : Prop :=
  smallest_normal <= 0.5 * fs
  /\ (filter_type <> "Band-Stop"%string ->
      smallest_normal <= normalized cutoff fs).

(** The intensities [add_noise] accepts: not a negative one for the
    Gaussian kind, and for the impulse kind one whose range, from
    [-intensity * 2] to [intensity * 2], does not overflow. *)
Definition noise_accepted (noise_type : string) (intensity : R) : Prop :=
  (noise_type = "gaussian"%string -> 0 <= intensity)
  /\ (noise_type = "impulse"%string ->
      Rabs (intensity * 2 - - intensity * 2) < float_overflow).

(** What a single-cutoff design accepts, and what the band-stop design
    accepts, in terms of the arguments of the design functions. *)
Definition cutoff_accepted (cutoff fs : R) : Prop :=
  fs <> 0 /\ 0 < normalized cutoff fs < 1.

Definition band_accepted (lowcut highcut fs : R) : Prop :=
  fs <> 0 /\ 0 < normalized lowcut fs
  /\ normalized lowcut fs < normalized highcut fs
  /\ normalized highcut fs < 1.

(** ** Concrete parameters, to evaluate the functions at an input *)

(** A counter as random source: the state is the number of draws made. *)
#[export] Instance counter_random : RandomState nat := {|
  next_gauss g := (INR g - 1, S g);
  next_double g := (/ INR (g + 2), S g);
  next_uint g := ((7 * g + 3)%nat, S g)
|}.

(** A two-tap average in the place of the Butterworth design: numerator
    [0.5, 0.5] and zeros after the leading 1 of the denominator. *)
Definition averaging_design (bt : btype) (N : nat) (Wn : list R)
  : list R * list R :=
  ([0.5; 0.5], []).


(** ** NumPy and Matplotlib: what the two applications use besides *)

(** [np.arange(start, stop, step)] over floats, for a positive step: the
    [ceil((stop - start) / step)] values [start + k * step]. *)
Definition np_arange (start stop step : R) : list R :=
  map (fun k => start + INR k * step)
    (seq 0 (Z.to_nat (Zceil ((stop - start) / step)))).

(** [np.linspace(start, stop, num)]: [num] evenly spaced values with both
    ends included; one value is [start] alone. *)
Definition np_linspace (start stop : R) (num : nat) : list R :=
  match num with
  | O => []
  | S O => [start]
  | S (S _) =>
      map (fun k => start + INR k * ((stop - start) / INR (num - 1)))
        (seq 0 num)
  end.

(** Elementwise [x - y] of two arrays of one length. *)
Fixpoint np_subtract (x y : list R) : list R :=
  match x, y with
  | a :: x', b :: y' => (a - b) :: np_subtract x' y'
  | _, _ => []
  end.

(** [ax.plot(x, y)]: Matplotlib refuses two arrays of different lengths. *)
Definition plt_plot (x y : list R) : result unit :=
  if (List.length x =? List.length y)%nat then Ok tt
  else Raise (ValueError "x and y must have same first dimension").

(** [scipy.signal.iirnotch(w0, Q)] with the default [fs=2.0]: a frequency
    outside [[0, 1]] is refused, the bandwidth is [w0 / Q], and the
    second-order coefficients follow. *)
Definition iirnotch (w0 Q : R) : result (list R * list R) :=
  if Rltb 1 w0 || Rltb w0 0 then
    Raise (ValueError "w0 should be such that 0 < w0 < 1")
  else
    bw <- py_div w0 Q ;;
    let bw := bw * np.pi in
    let w0 := w0 * np.pi in
    let beta := tan (bw / 2) in
    let gain := 1 / (1 + beta) in
    Ok ([gain * 1; gain * (-2 * cos w0); gain * 1],
        [1; -2 * gain * cos w0; 2 * gain - 1]).

(** ** Audio_signal_processing.py: the notch filter *)

Definition apply_notch_filter (signal : list R) (notch_freq fs quality : R)
  : result (list R) :=
  let nyquist := 0.5 * fs in
  norm_notch_freq <- py_div notch_freq nyquist ;;
  '(b, a) <- iirnotch norm_notch_freq quality ;;
  lfilter b a signal.

(** ** The two applications

    The widgets are read before the processing starts, so their values are
    arguments: the entries of the PCB application already parsed as floats,
    the check boxes and sliders of the audio application as a record. *)

(** The four curves [process_signal] plots, each with its horizontal
    axis. *)
Record plots : Type := {
  p_time : list R;
  p_signal : list R;
  p_xf : list R;
  p_magnitudes : list R;
  p_filtered : list R;
  p_noise : list R
}.

(** The check boxes and the sliders of the audio application. *)
Record controls : Type := {
  high_pass_var : bool;
  low_pass_var : bool;
  band_pass_var : bool;
  notch_var : bool;
  high_pass_scale : R;
  low_pass_scale : R;
  band_pass_low_scale : R;
  band_pass_high_scale : R;
  notch_scale : R
}.

(** The ranges of the five sliders, as [SignalProcessorApp.__init__] of the
    audio application creates them. *)
Definition sliders_in_range (c : controls) : Prop :=
  300 <= high_pass_scale c <= 3000
  /\ 500 <= low_pass_scale c <= 5000
  /\ 300 <= band_pass_low_scale c <= 3000
  /\ 500 <= band_pass_high_scale c <= 5000
  /\ 100 <= notch_scale c <= 3000.

(** The attributes of the audio application that the processing reads and
    writes.  [audio_signal] and [sampling_rate] are assigned together, from
    one pair, so they are one optional pair here. *)
Record audio_app : Type := {
  loaded_audio : option (list R * R);
  processed_signal : option (list R)
}.

(** What a callback of the audio application shows, prints or plays. *)
Inductive feedback : Type :=
| Plotted
| Printed (msg : string)
| Warning (msg : string)
| Played (signal : list R) (samplerate : option R).

(** [plot_signal(ax, signal, sr, title)]: the time axis runs to
    [len(signal) / sr]. *)
Definition plot_signal (signal : list R) (sr : R) : result unit :=
  stop <- py_div (INR (List.length signal)) sr ;;
  plt_plot (np_linspace 0 stop (List.length signal)) signal.

Section Applications.
Variable butter_design : btype -> nat -> list R -> list R * list R.
Context {rng : Type} `{RandomState rng}.

(** [librosa.load(file_path, sr=None)]: the samples and the sample rate of
    an audio file, or an exception. *)
Variable librosa_load : string -> result (list R * R).

(** *** PCB_signal_processing_2.py: [process_signal] *)

Definition process_signal (signal_data : option (list R))
  (signal_type noise_type : string) (intensity : R)
  (filter_type : string) (cutoff : R) (g : rng) : result (plots * rng) :=
  '(time, signal, g') <-
    match signal_data with
    | Some signal =>
        let time :=
          np_linspace 0 (INR (List.length signal) / 100)
            (List.length signal) in
        Ok (time, signal, g)
    | None =>
        let time := np_arange 0 10 0.01 in
        let signal := generate_signal signal_type 5 time in
        '(signal, g') <- add_noise signal noise_type intensity g ;;
        Ok (time, signal, g')
    end ;;
  let fs := process_signal_fs in
  filtered_signal <- apply_filter butter_design signal filter_type cutoff fs ;;
  '(xf, magnitudes) <- process_signal_fft signal fs ;;
  _ <- plt_plot time signal ;;
  _ <- plt_plot xf magnitudes ;;
  _ <- plt_plot time filtered_signal ;;
  let noise := np_subtract signal filtered_signal in
  _ <- plt_plot time noise ;;
  Ok ({| p_time := time; p_signal := signal;
         p_xf := xf; p_magnitudes := magnitudes;
         p_filtered := filtered_signal; p_noise := noise |}, g').

(** *** Audio_signal_processing.py: loading, processing, playing *)

(** The module function [load_audio]: an exception of the loader is
    caught and gives [(None, None)]. *)
Definition load_audio (file_path : string) : option (list R * R) :=
  match librosa_load file_path with
  | Ok loaded => Some loaded
  | Raise _ => None
  end.

(** The method [load_audio]: the attributes after the callback, and what
    it shows or the exception that ends it.  An empty path is a cancelled
    dialog. *)
Definition app_load_audio (app : audio_app) (file_path : string)
  : audio_app * result feedback :=
  if (file_path =? "")%string then (app, Ok Plotted)
  else
    let app' := {| loaded_audio := load_audio file_path;
                   processed_signal := processed_signal app |} in
    match loaded_audio app' with
    | Some (audio_signal, sampling_rate) =>
        (app', _ <- plot_signal audio_signal sampling_rate ;; Ok Plotted)
    | None => (app', Ok (Printed "Failed to load audio."))
    end.

Definition play_audio (app : audio_app) : feedback :=
  match processed_signal app with
  | Some processed => Played processed (option_map snd (loaded_audio app))
  | None => Warning "No processed audio to play."
  end.

(** The selected filters of [process_audio], in the order of the source:
    high-pass, low-pass, band-pass, notch (with its default quality 30). *)
Definition apply_selected (c : controls) (fs : R) (signal : list R)
  : result (list R) :=
  s1 <- (if high_pass_var c
         then apply_high_pass butter_design signal (high_pass_scale c) fs
         else Ok signal) ;;
  s2 <- (if low_pass_var c
         then apply_low_pass butter_design s1 (low_pass_scale c) fs
         else Ok s1) ;;
  s3 <- (if band_pass_var c
         then apply_band_pass butter_design s2 (band_pass_low_scale c)
                (band_pass_high_scale c) fs
         else Ok s2) ;;
  s4 <- (if notch_var c
         then apply_notch_filter s3 (notch_scale c) fs 30
         else Ok s3) ;;
  Ok s4.

(** [process_audio]: the attributes after the callback, and what it shows
    or the exception that ends it.  A filter that raises leaves the
    attributes as they were; the plots come after the assignment of
    [processed_signal]. *)
Definition process_audio (app : audio_app) (c : controls)
  : audio_app * result feedback :=
  match loaded_audio app with
  | None => (app, Ok (Warning "Please load an audio file first."))
  | Some (audio_signal, sampling_rate) =>
      match apply_selected c sampling_rate audio_signal with
      | Raise e => (app, Raise e)
      | Ok processed =>
          ({| loaded_audio := loaded_audio app;
              processed_signal := Some processed |},
           _ <- plot_signal audio_signal sampling_rate ;;
           _ <- plot_signal processed sampling_rate ;;
           Ok Plotted)
      end
  end.

End Applications.

(** The audio application as [__init__] leaves it. *)
Definition initial_audio_app : audio_app :=
  {| loaded_audio := None; processed_signal := None |}.

(** The controls as [__init__] of the audio application leaves them:
    nothing ticked, the sliders at their [set] values. *)
Definition default_controls : controls :=
  {| high_pass_var := false; low_pass_var := false;
     band_pass_var := false; notch_var := false;
     high_pass_scale := 500; low_pass_scale := 3000;
     band_pass_low_scale := 300; band_pass_high_scale := 3400;
     notch_scale := 1000 |}.

(** The default controls with every filter ticked. *)
Definition all_filters_ticked : controls :=
  {| high_pass_var := true; low_pass_var := true;
     band_pass_var := true; notch_var := true;
     high_pass_scale := 500; low_pass_scale := 3000;
     band_pass_low_scale := 300; band_pass_high_scale := 3400;
     notch_scale := 1000 |}.

(** A loader that knows one file, of two samples at 8 kHz. *)
Definition one_file_loader (file_path : string) : result (list R * R) :=
  if (file_path =? "speech.wav")%string then Ok ([1; 2], 8000)
  else Raise (ValueError "no such file").

(** ** What it means to behave as a causal linear filter started at rest

    A buffer transformation [F] that may raise is filter-like when
    - whether it raises, and what, does not depend on the samples;
    - a returned buffer has the length of the input;
    - the first [k] output samples depend on the first [k] input samples
      only;
    - the output of [c * s1 + s2] is [c * o1 + o2];
    - silence gives silence;
    - delaying the input by one sample of silence delays the output by
      one sample. *)
Record filter_like (F : list R -> result (list R)) : Prop := {
  fl_uniform : forall s s' e, F s = Raise e -> F s' = Raise e;
  fl_length : forall s out, F s = Ok out -> List.length out = List.length s;
  fl_causal :
    forall s out k, F s = Ok out -> F (firstn k s) = Ok (firstn k out);
  fl_linear :
    forall c s1 s2 o1 o2,
      List.length s1 = List.length s2 ->
      F s1 = Ok o1 -> F s2 = Ok o2 ->
      F (np.add (map (Rmult c) s1) s2) = Ok (np.add (map (Rmult c) o1) o2);
  fl_rest : forall n out, F (np.zeros n) = Ok out -> out = np.zeros n;
  fl_shift : forall s out, F s = Ok out -> F (0 :: s) = Ok (0 :: out)
}.

(** * Properties *)

(** ** Results and comparisons *)

Lemma raises_not_succeeds {A : Type} (m : result A) :
  raises m <-> ~ succeeds m.
Proof.
  unfold raises, succeeds. destruct m as [a | e]; split.
  - intros [e He]. discriminate He.
  - intros Hn. exfalso. apply Hn. now exists a.
  - intros _ [a Ha]. discriminate Ha.
  - intros _. now exists e.
Qed.

Lemma bind_Ok {A : Type} (m : result A) : bind m Ok = m.
Proof. now destruct m. Qed.

Lemma Rltb_true (x y : R) : Rltb x y = true <-> x < y.
Proof. unfold Rltb. destruct (Rlt_dec x y); split; congruence || tauto. Qed.

Lemma Rltb_false (x y : R) : Rltb x y = false <-> y <= x.
Proof.
  unfold Rltb. destruct (Rlt_dec x y); split; intros; try lra; congruence.
Qed.

Lemma Rleb_true (x y : R) : Rleb x y = true <-> x <= y.
Proof. unfold Rleb. destruct (Rle_dec x y); split; congruence || tauto. Qed.

Lemma Rleb_false (x y : R) : Rleb x y = false <-> y < x.
Proof.
  unfold Rleb. destruct (Rle_dec x y); split; intros; try lra; congruence.
Qed.

Lemma Reqb_true (x y : R) : Reqb x y = true <-> x = y.
Proof. unfold Reqb. destruct (Req_dec_T x y); split; congruence || tauto. Qed.

Lemma Reqb_false (x y : R) : Reqb x y = false <-> x <> y.
Proof. unfold Reqb. destruct (Req_dec_T x y); split; congruence || tauto. Qed.

Lemma py_div_nonzero (x y : R) : y <> 0 -> py_div x y = Ok (x / y).
Proof.
  intros Hy. unfold py_div. now apply Reqb_false in Hy as ->.
Qed.

Lemma py_div_zero (x y : R) :
  y = 0 -> py_div x y = Raise (ZeroDivisionError "float division by zero").
Proof.
  intros Hy. unfold py_div. now apply Reqb_true in Hy as ->.
Qed.

(** A string outside a list of literals fails each comparison with them. *)
Lemma not_in_eqb (s t : string) (l : list string) :
  ~ In s l -> In t l -> (s =? t)%string = false.
Proof.
  intros Hs Ht. apply String.eqb_neq. intros ->. contradiction.
Qed.

(** ** The recursive filter keeps the length of its input *)

Lemma df2t_length (b a x z : list R) :
  List.length (df2t b a z x) = List.length x.
Proof.
  revert z. induction x as [| xn x IH]; intros z; simpl.
  - reflexivity.
  - now rewrite IH.
Qed.

Lemma linear_filter_length (b a x y : list R) :
  linear_filter b a x = Ok y -> List.length y = List.length x.
Proof.
  unfold linear_filter. destruct a as [| a0 a]; [discriminate |].
  destruct (Reqb a0 0); [discriminate |].
  intros [= <-]. apply df2t_length.
Qed.

(** With a denominator of two coefficients or more [lfilter] is its
    recursive path. *)
Lemma lfilter_recursive (b a x : list R) (a0 a1 : R) :
  lfilter b (a0 :: a1 :: a) x = linear_filter b (a0 :: a1 :: a) x.
Proof. reflexivity. Qed.

Lemma lfilter_length (b a x y : list R) :
  lfilter b a x = Ok y -> List.length y = List.length x.
Proof.
  unfold lfilter. destruct a as [| a0 [| a1 a]]; try destruct x;
    try discriminate; apply linear_filter_length.
Qed.

(** A monic denominator of two coefficients or more is accepted on every
    input. *)
Lemma lfilter_monic (b a x : list R) (a1 : R) :
  exists y,
    lfilter b (1 :: a1 :: a) x = Ok y /\ List.length y = List.length x.
Proof.
  rewrite lfilter_recursive. unfold linear_filter.
  assert (H1 : Reqb 1 0 = false) by (apply Reqb_false; lra).
  rewrite H1. eexists. split; [reflexivity | apply df2t_length].
Qed.

Lemma lfilter_empty (b a : list R) (a1 : R) :
  lfilter b (1 :: a1 :: a) [] = Ok [].
Proof.
  rewrite lfilter_recursive. unfold linear_filter.
  assert (H1 : Reqb 1 0 = false) by (apply Reqb_false; lra).
  now rewrite H1.
Qed.

(** A denominator of one coefficient is refused on the empty input. *)
Lemma lfilter_one_coefficient (b : list R) (a0 : R) :
  lfilter b [a0] [] = Raise (ValueError "v cannot be empty").
Proof. reflexivity. Qed.

Lemma fit_length (n : nat) (l : list R) : List.length (fit n l) = n.
Proof.
  unfold fit. rewrite length_firstn, length_app, repeat_length. lia.
Qed.

Lemma fit_cons (n : nat) (l : list R) :
  exists c t, fit (S n) l = c :: t.
Proof.
  unfold fit. destruct l as [| c l]; simpl; eauto.
Qed.

(** ** What [butter] accepts *)

Section ButterFacts.
Variable design : btype -> nat -> list R -> list R * list R.

(** From order 1 on the designed denominator is monic and has a second
    coefficient. *)
Lemma designed_monic (bt : btype) (N : nat) (Wn : list R) :
  (1 <= N)%nat ->
  exists b a1 a_tail, designed design bt N Wn = (b, 1 :: a1 :: a_tail).
Proof.
  intros HN. unfold designed.
  assert (Hd : exists n, design_degree bt N = S n).
  { destruct N as [| N]; [lia |]. destruct bt; simpl; eauto. }
  destruct Hd as [n ->].
  destruct (fit_cons n (snd (design bt N Wn))) as (a1 & t & ->). eauto.
Qed.

Lemma butter_monic (N : nat) (Wn : list R) (bt : btype) (b a : list R) :
  (1 <= N)%nat ->
  butter design N Wn bt = Ok (b, a) -> exists a1 a_tail, a = 1 :: a1 :: a_tail.
Proof.
  intros HN. unfold butter.
  destruct (existsb _ Wn); [discriminate |].
  destruct (match Wn with w0 :: w1 :: _ => negb (Rltb w0 w1) | _ => false end);
    [discriminate |].
  destruct (existsb _ Wn); [discriminate |].
  destruct (designed_monic bt N Wn HN) as (b' & a1 & t & E).
  destruct bt, Wn as [| w0 [| w1 [| w2 Wn]]]; try discriminate;
    rewrite E; intros [= <- <-]; eauto.
Qed.

Lemma butter_single_ok (N : nat) (w : R) (bt : btype) :
  bt <> Bandstop -> 0 < w < 1 ->
  butter design N [w] bt = Ok (designed design bt N [w]).
Proof.
  intros Hbt [H0 H1]. unfold butter. simpl.
  assert (E0 : Rleb w 0 = false) by now apply Rleb_false.
  assert (E1 : Rleb 1 w = false) by now apply Rleb_false.
  rewrite E0, E1. simpl.
  destruct bt; congruence.
Qed.

Lemma butter_single_bad (N : nat) (w : R) (bt : btype) :
  ~ 0 < w < 1 -> raises (butter design N [w] bt).
Proof.
  intros Hw. unfold butter, raises. simpl.
  destruct (Rleb w 0) eqn:E0; simpl; [eauto |].
  destruct (Rleb 1 w) eqn:E1; simpl; [eauto |].
  apply Rleb_false in E0, E1. exfalso. apply Hw. lra.
Qed.

Lemma butter_pair_ok (N : nat) (lo hi : R) :
  0 < lo -> lo < hi -> hi < 1 ->
  butter design N [lo; hi] Bandstop = Ok (designed design Bandstop N [lo; hi]).
Proof.
  intros H0 Hlt H1. unfold butter. simpl.
  assert (E0 : Rleb lo 0 = false) by (apply Rleb_false; lra).
  assert (E1 : Rleb hi 0 = false) by (apply Rleb_false; lra).
  assert (E2 : Rltb lo hi = true) by now apply Rltb_true.
  assert (E3 : Rleb 1 lo = false) by (apply Rleb_false; lra).
  assert (E4 : Rleb 1 hi = false) by (apply Rleb_false; lra).
  rewrite E0, E1, E2, E3, E4. reflexivity.
Qed.

Lemma butter_pair_bad (N : nat) (lo hi : R) :
  ~ (0 < lo /\ lo < hi /\ hi < 1) ->
  raises (butter design N [lo; hi] Bandstop).
Proof.
  intros Hw. unfold butter, raises. simpl.
  destruct (Rleb lo 0) eqn:E0; simpl; [eauto |].
  destruct (Rleb hi 0) eqn:E1; simpl; [eauto |].
  destruct (Rltb lo hi) eqn:E2; simpl; [| eauto].
  destruct (Rleb 1 lo) eqn:E3; simpl; [eauto |].
  destruct (Rleb 1 hi) eqn:E4; simpl; [eauto |].
  apply Rleb_false in E0, E1, E3, E4. apply Rltb_true in E2.
  exfalso. apply Hw. lra.
Qed.

(** A single-cutoff design, as [butter_lowpass], [butter_highpass] and
    [butter_filter] run it. *)
Lemma butter_filter_ok (order : nat) (cutoff fs : R) (bt : btype) :
  bt <> Bandstop -> fs <> 0 -> 0 < normalized cutoff fs < 1 ->
  butter_filter design order cutoff fs bt
  = Ok (designed design bt order [normalized cutoff fs]).
Proof.
  intros Hbt Hfs Hw. unfold butter_filter.
  rewrite py_div_nonzero by lra. simpl.
  now apply butter_single_ok.
Qed.

Lemma butter_filter_bad (order : nat) (cutoff fs : R) (bt : btype) :
  fs = 0 \/ ~ 0 < normalized cutoff fs < 1 ->
  raises (butter_filter design order cutoff fs bt).
Proof.
  intros Hbad. unfold butter_filter.
  destruct (Req_dec_T fs 0) as [Hz | Hnz].
  - rewrite py_div_zero by lra. simpl. unfold raises. eauto.
  - rewrite py_div_nonzero by lra. simpl.
    apply butter_single_bad. tauto.
Qed.

Lemma butter_lowpass_is_filter (cutoff fs : R) (order : nat) :
  butter_lowpass design cutoff fs order
  = butter_filter design order cutoff fs Low.
Proof. reflexivity. Qed.

Lemma butter_highpass_is_filter (cutoff fs : R) (order : nat) :
  butter_highpass design cutoff fs order
  = butter_filter design order cutoff fs High.
Proof. reflexivity. Qed.

Lemma butter_bandstop_ok (lowcut highcut fs : R) (order : nat) :
  fs <> 0 ->
  0 < normalized lowcut fs -> normalized lowcut fs < normalized highcut fs ->
  normalized highcut fs < 1 ->
  butter_bandstop design lowcut highcut fs order
  = Ok (designed design Bandstop order [normalized lowcut fs; normalized highcut fs]).
Proof.
  intros Hfs H0 Hlt H1. unfold butter_bandstop.
  rewrite !py_div_nonzero by lra. simpl.
  now apply butter_pair_ok.
Qed.

Lemma butter_bandstop_bad (lowcut highcut fs : R) (order : nat) :
  fs = 0 \/
  ~ (0 < normalized lowcut fs /\ normalized lowcut fs < normalized highcut fs
     /\ normalized highcut fs < 1) ->
  raises (butter_bandstop design lowcut highcut fs order).
Proof.
  intros Hbad. unfold butter_bandstop.
  destruct (Req_dec_T fs 0) as [Hz | Hnz].
  - rewrite py_div_zero by lra. simpl. unfold raises. eauto.
  - rewrite !py_div_nonzero by lra. simpl.
    apply butter_pair_bad. tauto.
Qed.

Lemma normalized_in_range (cutoff fs : R) :
  0 < fs -> 0 < cutoff < 0.5 * fs -> 0 < normalized cutoff fs < 1.
Proof.
  intros Hfs [H0 H1]. unfold normalized. split.
  - apply Rdiv_lt_0_compat; lra.
  - apply Rmult_lt_reg_r with (0.5 * fs); [lra |].
    unfold Rdiv. rewrite Rmult_assoc, Rinv_l by lra. lra.
Qed.

End ButterFacts.

(** ** Filter application *)

Section FilterProperties.
Variable design : btype -> nat -> list R -> list R * list R.

(** Whatever the design step accepted is run through [lfilter] with a
    monic denominator. *)
Lemma apply_filter_valid (signal : list R) (filter_type : string)
  (cutoff fs : R) :
  In filter_type filter_types -> valid_filter_spec filter_type cutoff fs ->
  exists b a1 a_tail,
    apply_filter design signal filter_type cutoff fs
    = lfilter b (1 :: a1 :: a_tail) signal.
Proof.
  intros Hin [Hfs Hcut]. unfold apply_filter.
  destruct Hin as [<- | [<- | [<- | []]]];
    cbn [String.eqb Ascii.eqb Bool.eqb] in Hcut |- *.
  - rewrite butter_lowpass_is_filter, butter_filter_ok;
      [| discriminate | lra | now apply normalized_in_range].
    destruct (designed_monic design Low 5 [normalized cutoff fs])
      as (b & a1 & t & ->); [lia |].
    cbn [bind]. eauto.
  - rewrite butter_highpass_is_filter, butter_filter_ok;
      [| discriminate | lra | now apply normalized_in_range].
    destruct (designed_monic design High 5 [normalized cutoff fs])
      as (b & a1 & t & ->); [lia |].
    cbn [bind]. eauto.
  - assert (H5 : 0 < normalized 5 fs < 1)
      by (apply normalized_in_range; lra).
    assert (H05 : 0 < normalized 0.5 fs < 1)
      by (apply normalized_in_range; lra).
    rewrite butter_bandstop_ok; try lra.
    + destruct (designed_monic design Bandstop 5
                  [normalized 0.5 fs; normalized 5 fs])
        as (b & a1 & t & ->); [lia |].
      cbn [bind]. eauto.
    + unfold normalized, Rdiv. apply Rmult_lt_compat_r; [| lra].
      apply Rinv_0_lt_compat. lra.
Qed.

Lemma apply_filter_ok_length (signal out : list R) (filter_type : string)
  (cutoff fs : R) :
  apply_filter design signal filter_type cutoff fs = Ok out ->
  List.length out = List.length signal.
Proof.
  unfold apply_filter.
  destruct (if (filter_type =? "Low-Pass (RC)")%string then _ else _)
    as [[b a] | e]; simpl; [| discriminate].
  apply lfilter_length.
Qed.

Lemma apply_band_pass_valid (signal : list R) (lowcut highcut fs : R) :
  fs <> 0 -> 0 < normalized lowcut fs < 1 -> 0 < normalized highcut fs < 1 ->
  exists b1 c1 a1 b2 c2 a2 low_passed,
    lfilter b1 (1 :: c1 :: a1) signal = Ok low_passed /\
    apply_band_pass design signal lowcut highcut fs
    = lfilter b2 (1 :: c2 :: a2) low_passed.
Proof.
  intros Hfs Hlo Hhi. unfold apply_band_pass.
  rewrite !butter_filter_ok by (assumption || discriminate).
  destruct (designed_monic design Low 4 [normalized highcut fs])
    as (b1 & c1 & a1 & ->); [lia |].
  destruct (designed_monic design High 4 [normalized lowcut fs])
    as (b2 & c2 & a2 & ->); [lia |].
  cbn [bind].
  destruct (lfilter_monic b1 a1 signal c1) as [low_passed [E _]].
  rewrite E. cbn [bind].
  exists b1, c1, a1, b2, c2, a2, low_passed. split; [exact E |].
  apply bind_Ok.
Qed.

Lemma apply_band_pass_ok_length (signal out : list R)
  (lowcut highcut fs : R) :
  apply_band_pass design signal lowcut highcut fs = Ok out ->
  List.length out = List.length signal.
Proof.
  unfold apply_band_pass.
  destruct (butter_filter design 4 highcut fs Low) as [[b1 a1] | e];
    simpl; [| discriminate].
  destruct (butter_filter design 4 lowcut fs High) as [[b2 a2] | e];
    simpl; [| discriminate].
  destruct (lfilter b1 a1 signal) as [low_passed | e] eqn:E1;
    simpl; [| discriminate].
  destruct (lfilter b2 a2 low_passed) as [band_passed | e] eqn:E2;
    simpl; [| discriminate].
  intros [= <-].
  apply lfilter_length in E1, E2. congruence.
Qed.

(** C1. Length invariance of filtering.  For a filter kind that
    [apply_filter] recognises, every output it returns has the length of the
    input buffer, and with a positive sample rate and the cutoff below the
    Nyquist frequency it does return one.  The same holds for the two-stage
    [apply_band_pass]. *)
Theorem apply_filter_preserves_length (signal : list R)
  (filter_type : string) (cutoff fs lowcut highcut : R) :
  In filter_type filter_types ->
  (forall out,
      apply_filter design signal filter_type cutoff fs = Ok out ->
      List.length out = List.length signal)
  /\ (valid_filter_spec filter_type cutoff fs ->
      exists out,
        apply_filter design signal filter_type cutoff fs = Ok out
        /\ List.length out = List.length signal)
  /\ (forall out,
      apply_band_pass design signal lowcut highcut fs = Ok out ->
      List.length out = List.length signal)
  /\ (0 < fs -> 0 < lowcut < 0.5 * fs -> 0 < highcut < 0.5 * fs ->
      exists out,
        apply_band_pass design signal lowcut highcut fs = Ok out
        /\ List.length out = List.length signal).
Proof.
  intros Hin. repeat split.
  - intros out. apply apply_filter_ok_length.
  - intros Hvalid.
    destruct (apply_filter_valid signal filter_type cutoff fs Hin Hvalid)
      as (b & a1 & a_tail & ->).
    apply lfilter_monic.
  - intros out. apply apply_band_pass_ok_length.
  - intros Hfs Hlo Hhi.
    destruct (apply_band_pass_valid signal lowcut highcut fs) as
      (b1 & c1 & a1 & b2 & c2 & a2 & low_passed & E1 & ->);
      [lra | now apply normalized_in_range | now apply normalized_in_range |].
    destruct (lfilter_monic b2 a2 low_passed c2) as [out [E2 Hlen]].
    exists out. split; [exact E2 |].
    apply lfilter_length in E1. congruence.
Qed.

Lemma butter_filter_monic (order : nat) (cutoff fs : R) (bt : btype)
  (b a : list R) :
  (1 <= order)%nat ->
  butter_filter design order cutoff fs bt = Ok (b, a) ->
  exists a1 a_tail, a = 1 :: a1 :: a_tail.
Proof.
  intros Horder. unfold butter_filter.
  destruct (py_div cutoff (0.5 * fs)) as [w | e]; cbn [bind]; [| discriminate].
  now apply butter_monic.
Qed.

(** C5. The band-pass is the cascade of the two single-edge stages: the
    low-pass designed at the high cutoff is applied to the input, the
    high-pass designed at the low cutoff is applied to that intermediate
    buffer, and the result of the second stage is returned.  The two sides
    agree on every input, in the value returned and in the exception
    raised. *)
Theorem apply_band_pass_is_cascade (signal : list R)
  (lowcut highcut fs : R) :
  apply_band_pass design signal lowcut highcut fs
  = band_pass_cascade design signal lowcut highcut fs.
Proof.
  unfold apply_band_pass, band_pass_cascade, apply_low_pass, apply_high_pass.
  destruct (butter_filter design 4 highcut fs Low) as [[b1 a1] | e] eqn:E1;
    cbn [bind]; [| reflexivity].
  assert (H4 : (1 <= 4)%nat) by lia.
  destruct (butter_filter_monic 4 highcut fs Low b1 a1 H4 E1)
    as (c1 & t1 & ->).
  destruct (lfilter_monic b1 t1 signal c1) as [low_passed [-> _]].
  cbn [bind].
  destruct (butter_filter design 4 lowcut fs High) as [[b2 a2] | e];
    cbn [bind]; [| reflexivity].
  apply bind_Ok.
Qed.

(** C10. The band-stop branch of [apply_filter] never reads its [cutoff]
    argument: it designs the order-5 band-stop filter for the fixed band
    from 0.5 Hz to 5 Hz, so two calls that differ in the cutoff alone give
    the same result, value or exception.  With the Nyquist frequency above
    5 Hz that result is the output of the filter designed for the band
    normalised by the Nyquist frequency. *)
Theorem band_stop_ignores_cutoff (signal : list R) (c1 c2 fs : R) :
  apply_filter design signal "Band-Stop" c1 fs
  = apply_filter design signal "Band-Stop" c2 fs
  /\ apply_filter design signal "Band-Stop" c1 fs
     = ('(b, a) <- butter_bandstop design 0.5 5 fs 5 ;; lfilter b a signal)
  /\ (5 < 0.5 * fs ->
      apply_filter design signal "Band-Stop" c1 fs
      = lfilter
          (fst (designed design Bandstop 5
                  [0.5 / (0.5 * fs); 5 / (0.5 * fs)]))
          (snd (designed design Bandstop 5
                  [0.5 / (0.5 * fs); 5 / (0.5 * fs)]))
          signal).
Proof.
  split; [reflexivity |]. split; [reflexivity |].
  intros Hfs. unfold apply_filter. cbn [String.eqb Ascii.eqb Bool.eqb].
  assert (H5 : 0 < normalized 5 fs < 1) by (apply normalized_in_range; lra).
  assert (H05 : 0 < normalized 0.5 fs < 1)
    by (apply normalized_in_range; lra).
  rewrite butter_bandstop_ok; try lra.
  - reflexivity.
  - unfold normalized, Rdiv. apply Rmult_lt_compat_r; [| lra].
    apply Rinv_0_lt_compat. lra.
Qed.

End FilterProperties.

(** ** Where the design puts the poles *)


























(** ** Signal synthesis *)

(** C6. The modulated kind ignores the requested frequency: for two
    frequencies [f1] and [f2] the outputs coincide, and at every point [t]
    of the time grid the sample is [sin(2 pi 10 t) * sin(2 pi 0.5 t)], the
    product of the 10 Hz carrier and the 0.5 Hz modulator. *)
Theorem modulated_ignores_frequency (f1 f2 : R) (time : list R) :
  generate_signal "modulated" f1 time = generate_signal "modulated" f2 time
  /\ List.length (generate_signal "modulated" f1 time) = List.length time
  /\ forall k : nat,
      (k < List.length time)%nat ->
      nth k (generate_signal "modulated" f1 time) 0
      = sin (2 * PI * 10 * nth k time 0) * sin (2 * PI * 0.5 * nth k time 0).
Proof.
  split; [reflexivity |]. split.
  - unfold generate_signal. simpl. apply length_map.
  - intros k Hk. unfold generate_signal. simpl.
    set (f := fun t => sin (2 * np.pi * 10 * t) * sin (2 * np.pi * 0.5 * t)).
    rewrite (nth_indep _ 0 (f 0)) by now rewrite length_map.
    rewrite map_nth. reflexivity.
Qed.

Lemma generate_signal_unknown (signal_type : string) (frequency : R)
  (time : list R) :
  ~ In signal_type signal_types ->
  generate_signal signal_type frequency time
  = generate_signal "sine" frequency time.
Proof.
  intros Hn. unfold generate_signal.
  rewrite !(not_in_eqb signal_type _ signal_types Hn); simpl; tauto.
Qed.

Lemma generate_signal_length (signal_type : string) (frequency : R)
  (time : list R) :
  List.length (generate_signal signal_type frequency time) = List.length time.
Proof.
  unfold generate_signal.
  repeat match goal with
         | |- context [if ?c then _ else _] => destruct c
         end; apply length_map.
Qed.

(** ** Noise injection *)

Lemma add_zeros (signal : list R) :
  np.add signal (np.zeros (List.length signal)) = signal.
Proof.
  unfold np.zeros. induction signal as [| x signal IH]; simpl.
  - reflexivity.
  - rewrite IH. f_equal. lra.
Qed.

Lemma float_overflow_large : 1e300 < float_overflow.
Proof. unfold float_overflow. lra. Qed.

Section NoiseProperties.
Context {rng : Type} `{RandomState rng}.

Lemma uniform_in_range (low high : R) (size : nat) (g : rng) :
  Rabs (high - low) < float_overflow ->
  np.random.uniform low high size g
  = Ok (map (fun u => low + (high - low) * u)
          (fst (draws next_double size g)),
        snd (draws next_double size g)).
Proof.
  intros Hr. unfold np.random.uniform.
  apply Rleb_false in Hr. rewrite Hr.
  now destruct (draws next_double size g).
Qed.

Lemma uniform_overflow (low high : R) (size : nat) (g : rng) :
  float_overflow <= Rabs (high - low) ->
  np.random.uniform low high size g
  = Raise (OverflowError "Range exceeds valid bounds").
Proof.
  intros Hr. unfold np.random.uniform.
  apply Rleb_true in Hr. now rewrite Hr.
Qed.

(** The range from 0.5 to 5 of the interference frequency is finite. *)
Lemma uniform1_interference (g : rng) :
  np.random.uniform1 0.5 5 g
  = Ok (0.5 + (5 - 0.5) * fst (next_double g), snd (next_double g)).
Proof.
  unfold np.random.uniform1.
  assert (E : Rleb float_overflow (Rabs (5 - 0.5)) = false).
  { apply Rleb_false. rewrite Rabs_right by lra.
    pose proof float_overflow_large. lra. }
  rewrite E. now destruct (next_double g).
Qed.

Lemma add_noise_unknown (signal : list R) (noise_type : string)
  (intensity : R) (g : rng) :
  ~ In noise_type noise_types ->
  add_noise signal noise_type intensity g = Ok (signal, g).
Proof.
  intros Hn. unfold add_noise.
  rewrite !(not_in_eqb noise_type _ noise_types Hn) by (simpl; tauto).
  simpl. now rewrite add_zeros.
Qed.

(** C7. With a noise kind that [add_noise] does not recognise the noise is
    the zero array: whatever the intensity, the call returns, its result has
    the length of the input and equals it sample for sample, and no random
    number is drawn. *)
Theorem add_noise_unknown_kind_is_identity (signal : list R)
  (noise_type : string) (intensity : R) (g : rng) :
  ~ In noise_type noise_types ->
  add_noise signal noise_type intensity g = Ok (signal, g)
  /\ forall out g',
      add_noise signal noise_type intensity g = Ok (out, g') ->
      List.length out = List.length signal
      /\ forall k : nat, nth k out 0 = nth k signal 0.
Proof.
  intros Hn.
  assert (E : add_noise signal noise_type intensity g = Ok (signal, g)).
  { unfold add_noise.
    rewrite !(not_in_eqb noise_type _ noise_types Hn) by (simpl; tauto).
    cbn [bind]. now rewrite add_zeros. }
  split; [exact E |].
  intros out g' Hout. rewrite E in Hout.
  injection Hout as <- <-. split; reflexivity.
Qed.

End NoiseProperties.

(** ** Unknown kinds and empty buffers *)

Section Dispatch.
Variable design : btype -> nat -> list R -> list R * list R.
Context {rng : Type} `{RandomState rng}.

Lemma apply_filter_unknown (signal : list R) (filter_type : string)
  (cutoff fs : R) :
  ~ In filter_type filter_types ->
  apply_filter design signal filter_type cutoff fs
  = Raise (ValueError "Unknown filter type.").
Proof.
  intros Hn. unfold apply_filter.
  rewrite !(not_in_eqb filter_type _ filter_types Hn) by (simpl; tauto).
  reflexivity.
Qed.

(** C9. Of the three dispatchers only [apply_filter] fails on a kind it
    does not know: it raises [ValueError] for every filter type outside its
    three; [generate_signal] computes the sine for an unknown signal type;
    [add_noise] returns the signal unchanged for an unknown noise type. *)
Theorem only_apply_filter_rejects_unknown_kind
  (signal time : list R) (filter_type signal_type noise_type : string)
  (cutoff fs frequency intensity : R) (g : rng) :
  ~ In filter_type filter_types ->
  ~ In signal_type signal_types ->
  ~ In noise_type noise_types ->
  apply_filter design signal filter_type cutoff fs
  = Raise (ValueError "Unknown filter type.")
  /\ generate_signal signal_type frequency time
     = map (fun t => sin (2 * PI * frequency * t)) time
  /\ generate_signal signal_type frequency time
     = generate_signal "sine" frequency time
  /\ add_noise signal noise_type intensity g = Ok (signal, g).
Proof.
  intros Hf Hs Hn. repeat split.
  - now apply apply_filter_unknown.
  - now rewrite generate_signal_unknown.
  - now apply generate_signal_unknown.
  - now apply add_noise_unknown.
Qed.

Lemma py_int_zero : py_int (0.05 * INR 0) = 0%Z.
Proof.
  simpl INR. rewrite Rmult_0_r. unfold py_int.
  assert (E : Rltb 0 0 = false) by (apply Rltb_false; lra).
  rewrite E. apply (ZfloorZ 0).
Qed.

Lemma add_noise_empty (noise_type : string) (intensity : R) (g : rng) :
  noise_accepted noise_type intensity ->
  exists g', add_noise [] noise_type intensity g = Ok ([], g').
Proof.
  intros [Hint Himp]. unfold add_noise. cbn [List.length].
  destruct (noise_type =? "gaussian")%string eqn:Eg.
  - apply String.eqb_eq in Eg. specialize (Hint Eg).
    unfold np.random.normal.
    assert (E : Rltb intensity 0 = false) by now apply Rltb_false.
    rewrite E. simpl. eauto.
  - destruct (noise_type =? "impulse")%string eqn:Ei.
    + apply String.eqb_eq in Ei. specialize (Himp Ei).
      rewrite py_int_zero. change (Z.to_nat 0) with 0%nat.
      cbn [np.random.randint bind].
      rewrite uniform_in_range by exact Himp.
      simpl. eauto.
    + destruct (noise_type =? "frequency_interference")%string.
      * rewrite uniform1_interference. simpl. eauto.
      * simpl. eauto.
Qed.

(** The impulse kind with a range that overflows raises, whatever the
    signal: the range is tested before the size. *)
Lemma add_noise_impulse_overflow (signal : list R) (intensity : R) (g : rng) :
  float_overflow <= Rabs (intensity * 2 - - intensity * 2) ->
  add_noise signal "impulse" intensity g
  = Raise (OverflowError "Range exceeds valid bounds").
Proof.
  intros Hr. unfold add_noise. cbn [String.eqb Ascii.eqb Bool.eqb].
  destruct (np.random.randint _ _ g) as [[positions g1] | e] eqn:Er.
  - cbn [bind]. now rewrite uniform_overflow.
  - exfalso. revert Er. unfold np.random.randint.
    destruct (Z.to_nat (py_int (0.05 * INR (List.length signal))))
      as [| k] eqn:Ek; [discriminate |].
    destruct (List.length signal =? 0)%nat eqn:E0.
    + apply Nat.eqb_eq in E0. rewrite E0, py_int_zero in Ek. discriminate.
    + now destruct (draws next_uint (S k) g).
Qed.

Lemma process_signal_fft_empty (fs : R) : raises (process_signal_fft [] fs).
Proof.
  unfold process_signal_fft, raises.
  destruct (py_div 1 fs) as [T | e]; simpl; eauto.
Qed.

(** C8, as the code has it.  Synthesis over an empty time grid, noise
    injection into an empty signal (for the Gaussian kind with an intensity
    that is not negative, for the impulse kind with an intensity whose
    range from [-intensity * 2] to [intensity * 2] does not overflow) and
    the filtering of an empty buffer by an accepted filter request (one
    whose normalised cutoff is not rounded to zero) return the empty
    buffer; the spectrum of an empty buffer is not computed:
    [process_signal_fft] raises. *)
Theorem empty_buffer_results
  (signal_type noise_type filter_type : string)
  (frequency intensity cutoff fs : R) (g : rng) :
  noise_accepted noise_type intensity ->
  In filter_type filter_types ->
  valid_filter_spec filter_type cutoff fs ->
  normalisation_in_range filter_type cutoff fs ->
  generate_signal signal_type frequency [] = []
  /\ (exists g', add_noise [] noise_type intensity g = Ok ([], g'))
  /\ apply_filter design [] filter_type cutoff fs = Ok []
  /\ raises (process_signal_fft [] fs).
Proof.
  intros Hint Hin Hvalid _. repeat split.
  - apply length_zero_iff_nil. apply generate_signal_length.
  - now apply add_noise_empty.
  - destruct (apply_filter_valid design [] filter_type cutoff fs Hin Hvalid)
      as (b & a1 & a_tail & ->).
    apply lfilter_empty.
  - apply process_signal_fft_empty.
Qed.

(** C4, as the code has it.  Every design function divides its cutoffs by
    the Nyquist frequency [0.5 * fs].  A single-cutoff design
    ([butter_filter] with ['low'] or ['high'], [butter_lowpass],
    [butter_highpass]) returns the coefficients designed for the normalised
    cutoff when the sample rate is not zero and the normalised cutoff lies
    strictly between 0 and 1, and raises otherwise.  [butter_bandstop]
    moreover raises when the low cutoff is not below the high one.  The
    band-pass of [apply_band_pass] is two single-cutoff designs: it returns
    whenever each of its cutoffs is accepted on its own and never compares
    the two. *)
Theorem design_validation (order : nat) (bt : btype)
  (cutoff lowcut highcut fs : R) (signal : list R) :
  bt <> Bandstop ->
  (cutoff_accepted cutoff fs ->
   butter_filter design order cutoff fs bt
   = Ok (designed design bt order [cutoff / (0.5 * fs)]))
  /\ (~ cutoff_accepted cutoff fs ->
      raises (butter_filter design order cutoff fs bt))
  /\ butter_lowpass design cutoff fs order
     = butter_filter design order cutoff fs Low
  /\ butter_highpass design cutoff fs order
     = butter_filter design order cutoff fs High
  /\ (band_accepted lowcut highcut fs ->
      butter_bandstop design lowcut highcut fs order
      = Ok (designed design Bandstop order
              [lowcut / (0.5 * fs); highcut / (0.5 * fs)]))
  /\ (~ band_accepted lowcut highcut fs ->
      raises (butter_bandstop design lowcut highcut fs order))
  /\ (cutoff_accepted lowcut fs -> cutoff_accepted highcut fs ->
      succeeds (apply_band_pass design signal lowcut highcut fs))
  /\ (~ (cutoff_accepted lowcut fs /\ cutoff_accepted highcut fs) ->
      raises (apply_band_pass design signal lowcut highcut fs)).
Proof.
  intros Hbt. unfold cutoff_accepted, band_accepted.
  split; [| split; [| split; [| split; [| split; [| split; [| split]]]]]].
  - intros [Hfs Hw]. now apply butter_filter_ok.
  - intros Hbad. apply butter_filter_bad.
    destruct (Req_dec_T fs 0); tauto.
  - reflexivity.
  - reflexivity.
  - intros (Hfs & H0 & Hlt & H1). now apply butter_bandstop_ok.
  - intros Hbad. apply butter_bandstop_bad.
    destruct (Req_dec_T fs 0); tauto.
  - intros [Hfs Hlo] [_ Hhi].
    destruct (apply_band_pass_valid design signal lowcut highcut fs
                Hfs Hlo Hhi)
      as (b1 & c1 & a1 & b2 & c2 & a2 & low_passed & _ & ->).
    destruct (lfilter_monic b2 a2 low_passed c2) as [out [E _]].
    now exists out.
  - intros Hbad. unfold apply_band_pass.
    destruct (butter_filter design 4 highcut fs Low) as [[b1 a1] | e1] eqn:E1;
      cbn [bind]; [| unfold raises; eauto].
    destruct (butter_filter design 4 lowcut fs High) as [[b2 a2] | e2] eqn:E2;
      cbn [bind]; [| unfold raises; eauto].
    exfalso. apply Hbad.
    assert (Hacc : forall c b a t,
               t <> Bandstop ->
               butter_filter design 4 c fs t = Ok (b, a) ->
               fs <> 0 /\ 0 < normalized c fs < 1).
    { intros c b a t Ht E.
      destruct (Req_dec_T fs 0) as [Hz | Hnz].
      - destruct (butter_filter_bad design 4%nat c fs t (or_introl Hz))
          as [e He]. congruence.
      - split; [exact Hnz |].
        destruct (Rlt_dec 0 (normalized c fs)) as [H0 | H0];
          [destruct (Rlt_dec (normalized c fs) 1) as [H1 | H1]; [tauto |] |];
          (destruct (butter_filter_bad design 4%nat c fs t) as [e He];
           [right; lra | congruence]). }
    split; [apply (Hacc lowcut b2 a2 High) | apply (Hacc highcut b1 a1 Low)];
      (discriminate || assumption).
Qed.

End Dispatch.

(** ** The spectrum *)

Lemma zrange_length (lo hi : Z) :
  List.length (zrange lo hi) = Z.to_nat (hi - lo).
Proof. unfold zrange. now rewrite length_map, length_seq. Qed.

Lemma zrange_nth (lo hi : Z) (k : nat) :
  (k < Z.to_nat (hi - lo))%nat ->
  nth k (zrange lo hi) 0%Z = (lo + Z.of_nat k)%Z.
Proof.
  intros Hk. unfold zrange.
  rewrite (nth_indep _ 0%Z (lo + Z.of_nat 0)%Z)
    by now rewrite length_map, length_seq.
  rewrite (map_nth (fun i => (lo + Z.of_nat i)%Z)).
  now rewrite seq_nth.
Qed.

(** The retained half fits into the non-negative part of the axis. *)
Lemma half_le_positive_part (n : nat) :
  (0 < n)%nat ->
  (n / 2 <= Z.to_nat ((Z.of_nat n - 1) / 2 + 1 - 0))%nat.
Proof.
  intros Hn.
  apply Nat2Z.inj_le. rewrite Nat2Z.inj_div.
  rewrite Z2Nat.id by (pose proof (Z.div_pos (Z.of_nat n - 1) 2); lia).
  change (Z.of_nat 2) with 2%Z.
  pose proof (Z.div_mod (Z.of_nat n) 2) as H1.
  pose proof (Z.div_mod (Z.of_nat n - 1) 2) as H2.
  pose proof (Z.mod_pos_bound (Z.of_nat n) 2) as H3.
  pose proof (Z.mod_pos_bound (Z.of_nat n - 1) 2) as H4.
  lia.
Qed.

Lemma fftfreq_nonneg_half (n : nat) (d : R) :
  (0 < n)%nat -> d <> 0 ->
  exists freqs,
    fftfreq n d = Ok freqs
    /\ (n / 2 <= List.length freqs)%nat
    /\ forall k, (k < n / 2)%nat -> nth k freqs 0 = INR k * (1 / (INR n * d)).
Proof.
  intros Hn Hd. unfold fftfreq.
  assert (HN : INR n <> 0) by (apply not_0_INR; lia).
  rewrite py_div_nonzero by now apply Rmult_integral_contrapositive.
  cbn [bind].
  set (val := 1 / (INR n * d)).
  set (p1 := zrange 0 ((Z.of_nat n - 1) / 2 + 1)).
  set (p2 := zrange (- (Z.of_nat n / 2)) 0).
  assert (Hp1 : (n / 2 <= List.length p1)%nat).
  { unfold p1. rewrite zrange_length. now apply half_le_positive_part. }
  eexists. split; [reflexivity |]. split.
  - rewrite length_map, length_app. lia.
  - intros k Hk.
    rewrite (nth_indep _ 0 (IZR 0 * val))
      by (rewrite length_map, length_app; lia).
    rewrite (map_nth (fun z => IZR z * val)).
    rewrite app_nth1 by lia.
    unfold p1. rewrite zrange_nth by (rewrite <- zrange_length; fold p1; lia).
    rewrite Z.add_0_l, <- INR_IZR_INZ. reflexivity.
Qed.

(** C2, as the code has it.  For a buffer of [N >= 1] samples and a sample
    rate other than zero the spectrum has [N / 2] entries (integer
    division, so for odd and even [N] alike); entry [k] has the frequency
    [k * fs / N] and the magnitude [(2 / N) * |X_k|], where [X_k] is the
    [k]-th coefficient of the discrete Fourier transform of the whole
    buffer. *)
Theorem spectrum_entries (signal : list R) (fs : R) :
  signal <> [] -> fs <> 0 ->
  exists xf magnitudes,
    process_signal_fft signal fs = Ok (xf, magnitudes)
    /\ List.length xf = (List.length signal / 2)%nat
    /\ List.length magnitudes = (List.length signal / 2)%nat
    /\ forall k, (k < List.length signal / 2)%nat ->
         nth k xf 0 = INR k * fs / INR (List.length signal)
         /\ nth k magnitudes 0
            = 2 / INR (List.length signal) * cabs (dft_coefficient signal k).
Proof.
  intros Hne Hfs. unfold process_signal_fft.
  set (N := List.length signal).
  assert (HNpos : (0 < N)%nat)
    by (unfold N; destruct signal; [congruence | simpl; lia]).
  assert (HN : INR N <> 0) by (apply not_0_INR; lia).
  assert (Hhalf : (N / 2 <= N)%nat) by (apply Nat.Div0.div_le_upper_bound; lia).
  rewrite py_div_nonzero by exact Hfs. cbn [bind].
  assert (Efft : fft signal = Ok (map (dft_coefficient signal) (seq 0 N)))
    by (unfold fft, N; destruct signal; [congruence | reflexivity]).
  rewrite Efft. cbn [bind].
  assert (HT : 1 / fs <> 0)
    by (unfold Rdiv; rewrite Rmult_1_l; now apply Rinv_neq_0_compat).
  destruct (fftfreq_nonneg_half N (1 / fs) HNpos HT)
    as (freqs & -> & Hlen & Hnth).
  cbn [bind]. rewrite py_div_nonzero by exact HN. cbn [bind].
  do 2 eexists. split; [reflexivity |]. split; [| split].
  - now apply firstn_length_le.
  - rewrite length_map. apply firstn_length_le.
    rewrite length_map, length_seq. exact Hhalf.
  - intros k Hk. split.
    + rewrite nth_firstn.
      assert (E : (k <? N / 2)%nat = true) by now apply Nat.ltb_lt.
      rewrite E, Hnth by exact Hk. field. split; assumption.
    + set (f := fun c => 2 / INR N * cabs c).
      rewrite (nth_indep _ 0 (f (dft_coefficient signal 0)))
        by (rewrite length_map; rewrite firstn_length_le;
            [exact Hk | rewrite length_map, length_seq; exact Hhalf]).
      rewrite (map_nth f), nth_firstn.
      assert (E : (k <? N / 2)%nat = true) by now apply Nat.ltb_lt.
      rewrite E, (map_nth (dft_coefficient signal)), seq_nth by lia.
      reflexivity.
Qed.

(** * The properties at concrete inputs *)

Lemma pink_unknown : ~ In "pink"%string noise_types.
Proof. simpl. intros [E | [E | [E | []]]]; discriminate E. Qed.

Lemma triangle_unknown : ~ In "triangle"%string signal_types.
Proof. simpl. intros [E | [E | [E | [E | []]]]]; discriminate E. Qed.

(** The filter menu of the PCB application offers this entry, which
    [apply_filter] does not handle. *)
Lemma butterworth_entry_unknown :
  ~ In "Butterworth Low-Pass"%string filter_types.
Proof. simpl. intros [E | [E | [E | []]]]; discriminate E. Qed.

Lemma telephone_band_accepted :
  cutoff_accepted 300 44100 /\ cutoff_accepted 3400 44100.
Proof.
  unfold cutoff_accepted. split; (split; [lra |]);
    apply normalized_in_range; lra.
Qed.

(** C1 at a three-sample buffer, a 2.5 Hz low-pass at 100 Hz and a
    5 Hz to 20 Hz band-pass. *)
Lemma apply_filter_preserves_length_witness :
  In "Low-Pass (RC)"%string filter_types
  /\ valid_filter_spec "Low-Pass (RC)" 2.5 100
  /\ (exists out,
         apply_filter averaging_design [1; 2; 3] "Low-Pass (RC)" 2.5 100
         = Ok out
         /\ List.length out = 3%nat)
  /\ (exists out,
         apply_band_pass averaging_design [1; 2; 3] 5 20 100 = Ok out
         /\ List.length out = 3%nat).
Proof.
  assert (Hin : In "Low-Pass (RC)"%string filter_types) by (simpl; tauto).
  assert (Hvalid : valid_filter_spec "Low-Pass (RC)" 2.5 100)
    by (unfold valid_filter_spec; simpl; lra).
  destruct (apply_filter_preserves_length averaging_design [1; 2; 3]
              "Low-Pass (RC)" 2.5 100 5 20 Hin) as (_ & Hf & _ & Hb).
  split; [exact Hin |]. split; [exact Hvalid |]. split.
  - exact (Hf Hvalid).
  - apply Hb; lra.
Defined.

(** C2 at a buffer of odd length, sampled at 100 Hz. *)
Lemma spectrum_entries_witness :
  [1; 0; -1] <> [] /\ process_signal_fs <> 0
  /\ exists xf magnitudes,
      process_signal_fft [1; 0; -1] process_signal_fs = Ok (xf, magnitudes)
      /\ List.length xf = 1%nat
      /\ List.length magnitudes = 1%nat
      /\ forall k, (k < 1)%nat ->
           nth k xf 0 = INR k * process_signal_fs / INR 3
           /\ nth k magnitudes 0
              = 2 / INR 3 * cabs (dft_coefficient [1; 0; -1] k).
Proof.
  assert (Hne : [1; 0; -1] <> []) by discriminate.
  assert (Hfs : process_signal_fs <> 0) by (unfold process_signal_fs; lra).
  split; [exact Hne |]. split; [exact Hfs |].
  exact (spectrum_entries [1; 0; -1] process_signal_fs Hne Hfs).
Defined.

(** C2 fails on the empty buffer: no spectrum is returned. *)
Lemma spectrum_of_empty_buffer_raises :
  process_signal_fft [] 100
  = Raise (ValueError "invalid number of data points (0) specified").
Proof.
  unfold process_signal_fft. rewrite py_div_nonzero by lra. reflexivity.
Qed.



(** C4 fails on the band-pass: with the low cutoff at 3400 Hz above the
    high cutoff at 300 Hz both designs are accepted and the filtered buffer
    is returned. *)
Lemma band_pass_accepts_swapped_cutoffs :
  3400 >= 300
  /\ succeeds (butter_filter averaging_design 4 300 44100 Low)
  /\ succeeds (butter_filter averaging_design 4 3400 44100 High)
  /\ succeeds (apply_band_pass averaging_design [1; 0; 0] 3400 300 44100).
Proof.
  destruct telephone_band_accepted as [[Hfs H300] [_ H3400]].
  split; [lra |]. split; [| split].
  - rewrite butter_filter_ok by (assumption || discriminate).
    now eexists.
  - rewrite butter_filter_ok by (assumption || discriminate).
    now eexists.
  - destruct (apply_band_pass_valid averaging_design [1; 0; 0] 3400 300 44100
                Hfs H3400 H300)
      as (b1 & c1 & a1 & b2 & c2 & a2 & low_passed & _ & ->).
    destruct (lfilter_monic b2 a2 low_passed c2) as [out [E _]].
    now exists out.
Qed.

(** C4 at the default low-pass of the PCB application, the fixed band of
    its band-stop branch and the default band-pass of the audio
    application. *)
Lemma design_validation_witness :
  Low <> Bandstop
  /\ cutoff_accepted 2.5 100
  /\ band_accepted 0.5 5 100
  /\ butter_filter averaging_design 5 2.5 100 Low
     = Ok (designed averaging_design Low 5 [2.5 / (0.5 * 100)])
  /\ butter_bandstop averaging_design 0.5 5 100 5
     = Ok (designed averaging_design Bandstop 5
             [0.5 / (0.5 * 100); 5 / (0.5 * 100)])
  /\ succeeds (apply_band_pass averaging_design [1; 0; 0] 300 3400 44100).
Proof.
  assert (Hbt : Low <> Bandstop) by discriminate.
  assert (Hc : cutoff_accepted 2.5 100)
    by (split; [lra | apply normalized_in_range; lra]).
  assert (Hb : band_accepted 0.5 5 100)
    by (unfold band_accepted, normalized; repeat split; lra).
  destruct telephone_band_accepted as [H300 H3400].
  destruct (design_validation averaging_design 5%nat Low 2.5 0.5 5 100 [] Hbt)
    as (Hok & _ & _ & _ & Hstop & _).
  destruct (design_validation averaging_design 4%nat Low 2.5 300 3400 44100
              [1; 0; 0] Hbt) as (_ & _ & _ & _ & _ & _ & Hpass & _).
  split; [exact Hbt |]. split; [exact Hc |]. split; [exact Hb |].
  split; [exact (Hok Hc) |]. split; [exact (Hstop Hb) |].
  exact (Hpass H300 H3400).
Defined.

(** C6 at a two-point time grid. *)
Lemma modulated_ignores_frequency_witness :
  (1 < List.length [0; 0.25]%R)%nat
  /\ generate_signal "modulated" 5 [0; 0.25]
     = generate_signal "modulated" 50 [0; 0.25]
  /\ nth 1 (generate_signal "modulated" 5 [0; 0.25]) 0
     = sin (2 * PI * 10 * nth 1 [0; 0.25] 0)
       * sin (2 * PI * 0.5 * nth 1 [0; 0.25] 0).
Proof.
  assert (Hk : (1 < List.length [0; 0.25]%R)%nat) by (simpl; lia).
  destruct (modulated_ignores_frequency 5 50 [0; 0.25]) as (Heq & _ & Hnth).
  split; [exact Hk |]. split; [exact Heq |].
  exact (Hnth 1%nat Hk).
Defined.

(** C7 at a two-sample signal. *)
Lemma add_noise_unknown_kind_is_identity_witness :
  ~ In "pink"%string noise_types
  /\ add_noise [1; 2] "pink" 0.5 0%nat = Ok ([1; 2], 0%nat).
Proof.
  split; [exact pink_unknown |].
  exact (proj1 (add_noise_unknown_kind_is_identity [1; 2] "pink" 0.5 0%nat
                  pink_unknown)).
Defined.

(** C10 at the sample rate of the PCB application. *)
Lemma band_stop_ignores_cutoff_witness :
  5 < 0.5 * 100
  /\ apply_filter averaging_design [1; 2; 3] "Band-Stop" 2.5 100
     = apply_filter averaging_design [1; 2; 3] "Band-Stop" 40 100
  /\ apply_filter averaging_design [1; 2; 3] "Band-Stop" 2.5 100
     = lfilter
         (fst (designed averaging_design Bandstop 5
                 [0.5 / (0.5 * 100); 5 / (0.5 * 100)]))
         (snd (designed averaging_design Bandstop 5
                 [0.5 / (0.5 * 100); 5 / (0.5 * 100)]))
         [1; 2; 3].
Proof.
  assert (Hfs : 5 < 0.5 * 100) by lra.
  destruct (band_stop_ignores_cutoff averaging_design [1; 2; 3] 2.5 40 100)
    as (Heq & _ & Hband).
  split; [exact Hfs |]. split; [exact Heq | exact (Hband Hfs)].
Defined.

(** C8 fails on the spectrum, where the empty buffer gives no empty
    spectrum, and on impulse noise of intensity 1e308, whose range
    overflows: both raise on the empty buffer. *)
Lemma empty_spectrum_is_not_returned :
  process_signal_fft [] process_signal_fs <> Ok ([], [])
  /\ raises (process_signal_fft [] process_signal_fs)
  /\ add_noise [] "impulse" 1e308 0%nat
     = Raise (OverflowError "Range exceeds valid bounds").
Proof.
  split; [| split].
  - destruct (process_signal_fft_empty process_signal_fs) as [e ->].
    discriminate.
  - apply process_signal_fft_empty.
  - apply add_noise_impulse_overflow.
    rewrite Rabs_right; unfold float_overflow; lra.
Qed.

(** C8 at impulse noise of intensity 0.5 and the low-pass filter at
    2.5 Hz, sampled at 100 Hz. *)
Lemma empty_buffer_results_witness :
  noise_accepted "impulse" 0.5
  /\ In "Low-Pass (RC)"%string filter_types
  /\ valid_filter_spec "Low-Pass (RC)" 2.5 100
  /\ normalisation_in_range "Low-Pass (RC)" 2.5 100
  /\ generate_signal "square" 5 [] = []
  /\ (exists g', add_noise [] "impulse" 0.5 0%nat = Ok ([], g'))
  /\ apply_filter averaging_design [] "Low-Pass (RC)" 2.5 100 = Ok []
  /\ raises (process_signal_fft [] 100).
Proof.
  assert (Hint : noise_accepted "impulse" 0.5).
  { split; [discriminate |]. intros _.
    rewrite Rabs_right; unfold float_overflow; lra. }
  assert (Hin : In "Low-Pass (RC)"%string filter_types) by (simpl; tauto).
  assert (Hvalid : valid_filter_spec "Low-Pass (RC)" 2.5 100)
    by (unfold valid_filter_spec; simpl; lra).
  assert (Hnormal : normalisation_in_range "Low-Pass (RC)" 2.5 100)
    by (unfold normalisation_in_range, normalized, smallest_normal;
        split; [| intros _]; lra).
  split; [exact Hint |]. split; [exact Hin |]. split; [exact Hvalid |].
  split; [exact Hnormal |].
  exact (empty_buffer_results averaging_design "square" "impulse"
           "Low-Pass (RC)" 5 0.5 2.5 100 0%nat Hint Hin Hvalid Hnormal).
Defined.

(** C9 at kinds none of the dispatchers knows. *)
Lemma only_apply_filter_rejects_unknown_kind_witness :
  ~ In "Butterworth Low-Pass"%string filter_types
  /\ ~ In "triangle"%string signal_types
  /\ ~ In "pink"%string noise_types
  /\ apply_filter averaging_design [1; 2] "Butterworth Low-Pass" 2.5 100
     = Raise (ValueError "Unknown filter type.")
  /\ generate_signal "triangle" 5 [0; 0.25]
     = generate_signal "sine" 5 [0; 0.25]
  /\ add_noise [1; 2] "pink" 0.5 0%nat = Ok ([1; 2], 0%nat).
Proof.
  destruct (only_apply_filter_rejects_unknown_kind averaging_design
              [1; 2] [0; 0.25] "Butterworth Low-Pass" "triangle" "pink"
              2.5 100 5 0.5 0%nat
              butterworth_entry_unknown triangle_unknown pink_unknown)
    as (Hf & _ & Hs & Hn).
  split; [exact butterworth_entry_unknown |].
  split; [exact triangle_unknown |]. split; [exact pink_unknown |].
  split; [exact Hf |]. split; [exact Hs | exact Hn].
Defined.

(** * The library models on small inputs *)

Example lfilter_two_tap_average :
  lfilter [0.5; 0.5] [1] [1; 2; 3] = Ok [0.5; 1.5; 2.5].
Proof.
  unfold lfilter, linear_filter.
  assert (E : Reqb 1 0 = false) by (apply Reqb_false; lra).
  rewrite E. simpl. repeat f_equal; lra.
Qed.

(** [y[n] = x[n] + 0.5 * y[n-1]], given with [a[0] = 2]. *)
Example lfilter_one_pole :
  lfilter [2] [2; -1] [1; 0; 0] = Ok [1; 0.5; 0.25].
Proof.
  unfold lfilter, linear_filter.
  assert (E : Reqb 2 0 = false) by (apply Reqb_false; lra).
  rewrite E. simpl. repeat f_equal; lra.
Qed.

Example lfilter_zero_leading_coefficient :
  raises (lfilter [1] [0; 1] [1; 0; 0]).
Proof.
  unfold lfilter, linear_filter, raises.
  assert (E : Reqb 0 0 = true) by now apply Reqb_true.
  rewrite E. eauto.
Qed.

Example fftfreq_odd :
  fftfreq 5 0.5 = Ok [0; 0.4; 0.8; -0.8; -0.4].
Proof.
  unfold fftfreq. rewrite py_div_nonzero by (simpl; lra).
  simpl. repeat f_equal; lra.
Qed.

Example fftfreq_even :
  fftfreq 4 0.5 = Ok [0; 0.5; -1; -0.5].
Proof.
  unfold fftfreq. rewrite py_div_nonzero by (simpl; lra).
  simpl. repeat f_equal; lra.
Qed.

Example setitems_duplicate_index :
  np.setitems [0; 0; 0] [1; 1]%nat [5; 7] = Ok [0; 7; 0].
Proof. reflexivity. Qed.

Example setitems_out_of_bounds :
  np.setitems [0; 0; 0] [3]%nat [5]
  = Raise (IndexError "index out of bounds").
Proof. reflexivity. Qed.

Example butter_rejects_nyquist :
  raises (butter_lowpass averaging_design 50 100 5).
Proof.
  rewrite butter_lowpass_is_filter. apply butter_filter_bad. right.
  unfold normalized. lra.
Qed.

Example butter_rejects_zero_rate :
  butter_lowpass averaging_design 2.5 0 5
  = Raise (ZeroDivisionError "float division by zero").
Proof.
  unfold butter_lowpass. rewrite py_div_zero by lra. reflexivity.
Qed.

Example spectrum_of_constant_pair :
  process_signal_fft [1; 1] 100 = Ok ([0], [2]).
Proof.
  unfold process_signal_fft.
  rewrite py_div_nonzero by lra. cbn [bind fft List.length].
  unfold fftfreq. rewrite py_div_nonzero by (simpl; lra).
  cbn [bind]. rewrite py_div_nonzero by (simpl; lra). cbn [bind].
  simpl. unfold dft_coefficient, cabs, cis, cscale, cadd. simpl.
  replace (- (2 * PI * 0 * 0 / (1 + 1))) with 0 by lra.
  replace (- (2 * PI * 0 * 1 / (1 + 1))) with 0 by lra.
  rewrite cos_0, sin_0.
  replace ((1 * 1 + (1 * 1 + 0)) * (1 * 1 + (1 * 1 + 0))
           + (1 * 0 + (1 * 0 + 0)) * (1 * 0 + (1 * 0 + 0))) with (2 * 2)
    by lra.
  rewrite sqrt_square by lra.
  repeat f_equal; lra.
Qed.

Example add_noise_impulse :
  add_noise (repeat 0 20) "impulse" 1 0%nat
  = Ok (repeat 0 3 ++ [- 2 / 3] ++ repeat 0 16, 2%nat).
Proof.
  unfold add_noise. cbn [String.eqb Ascii.eqb Bool.eqb].
  rewrite repeat_length.
  assert (E : py_int (0.05 * INR 20) = 1%Z).
  { unfold py_int.
    assert (E0 : Rltb (0.05 * INR 20) 0 = false)
      by (apply Rltb_false; simpl; lra).
    rewrite E0. apply Zfloor_eq. simpl. lra. }
  rewrite E. simpl.
  rewrite uniform_in_range
    by (rewrite Rabs_right; unfold float_overflow; lra).
  simpl.
  do 2 f_equal. repeat (apply (f_equal2 cons); [lra |]). reflexivity.
Qed.

Example add_noise_impulse_out_of_range :
  add_noise (repeat 0 20) "impulse" 1e308 0%nat
  = Raise (OverflowError "Range exceeds valid bounds").
Proof.
  apply add_noise_impulse_overflow.
  rewrite Rabs_right; unfold float_overflow; lra.
Qed.

(** * Further properties of the synthesis *)

Lemma sign_values (x : R) : np.sign x = -1 \/ np.sign x = 0 \/ np.sign x = 1.
Proof.
  unfold np.sign. destruct (Rltb x 0); [tauto |].
  destruct (Rltb 0 x); tauto.
Qed.

Lemma sign_zero_iff (x : R) : np.sign x = 0 <-> x = 0.
Proof.
  unfold np.sign. destruct (Rltb x 0) eqn:E1.
  - apply Rltb_true in E1. split; intros; lra.
  - apply Rltb_false in E1. destruct (Rltb 0 x) eqn:E2.
    + apply Rltb_true in E2. split; intros; lra.
    + apply Rltb_false in E2. split; intros; lra.
Qed.

(** X1. Whatever the kind, [generate_signal] gives one sample per time
    point; for every kind but the sawtooth, whose floor is not stable
    under rounding, every sample lies between -1 and 1. *)
Theorem generate_signal_amplitude (signal_type : string) (frequency : R)
  (time : list R) :
  List.length (generate_signal signal_type frequency time) = List.length time
  /\ (signal_type <> "sawtooth"%string ->
      Forall (fun s => -1 <= s <= 1)
        (generate_signal signal_type frequency time)).
Proof.
  split; [apply generate_signal_length |].
  intros Hsaw. apply String.eqb_neq in Hsaw.
  unfold generate_signal. rewrite Hsaw.
  repeat match goal with
         | |- context [if ?c then _ else _] => destruct c
         end;
    apply Forall_forall; intros s Hs; apply in_map_iff in Hs;
    destruct Hs as [t [<- _]].
  - apply SIN_bound.
  - destruct (sign_values (sin (2 * np.pi * frequency * t)))
      as [-> | [-> | ->]]; lra.
  - pose proof (SIN_bound (2 * np.pi * 10 * t)).
    pose proof (SIN_bound (2 * np.pi * 0.5 * t)). nra.
  - apply SIN_bound.
Qed.

(** X2. The square wave is the sign of the sine of the same phase: its
    samples are -1, 0 or 1, and a sample is 0 exactly where the sine
    is. *)
Theorem square_is_sign_of_sine (frequency : R) (time : list R) :
  generate_signal "square" frequency time
  = map np.sign (generate_signal "sine" frequency time)
  /\ Forall (fun s => s = -1 \/ s = 0 \/ s = 1)
       (generate_signal "square" frequency time)
  /\ forall k : nat,
      (k < List.length time)%nat ->
      (nth k (generate_signal "square" frequency time) 0 = 0
       <-> nth k (generate_signal "sine" frequency time) 0 = 0).
Proof.
  assert (E : generate_signal "square" frequency time
              = map np.sign (generate_signal "sine" frequency time)).
  { unfold generate_signal. simpl. now rewrite map_map. }
  split; [exact E |]. split.
  - rewrite E. apply Forall_forall. intros s Hs.
    apply in_map_iff in Hs. destruct Hs as [x [<- _]]. apply sign_values.
  - intros k Hk. rewrite E.
    rewrite (nth_indep _ 0 (np.sign 0))
      by now rewrite length_map, generate_signal_length.
    rewrite map_nth. apply sign_zero_iff.
Qed.

(** X4. The sine, which is also the fallback for the unknown kinds, is
    periodic with period [1 / frequency]: delaying every time point by one
    period gives the same samples.  The equality is that of the exact
    sines; the floats of a run agree up to the rounding of the phase.  The
    square wave and the sawtooth are left out: the sign and the floor turn
    that rounding into jumps. *)
Theorem generate_signal_periodic (signal_type : string) (frequency : R)
  (time : list R) :
  frequency <> 0 ->
  ~ In signal_type ["square"; "sawtooth"; "modulated"]%string ->
  generate_signal signal_type frequency (map (fun t => t + 1 / frequency) time)
  = generate_signal signal_type frequency time.
Proof.
  intros Hf Hm.
  assert (Hsin : forall t,
             sin (2 * np.pi * frequency * (t + 1 / frequency))
             = sin (2 * np.pi * frequency * t)).
  { intros t.
    replace (2 * np.pi * frequency * (t + 1 / frequency))
      with (2 * np.pi * frequency * t + 2 * INR 1 * PI)
      by (unfold np.pi; simpl; field; exact Hf).
    apply sin_period. }
  unfold generate_signal.
  rewrite (not_in_eqb signal_type "square" _ Hm),
    (not_in_eqb signal_type "sawtooth" _ Hm),
    (not_in_eqb signal_type "modulated" _ Hm) by (simpl; tauto).
  destruct (signal_type =? "sine")%string;
    rewrite map_map; apply map_ext; intros t; apply Hsin.
Qed.

(** X5. The modulated signal has the period 2 s, whatever frequency is
    requested. *)
Theorem modulated_period_two (frequency : R) (time : list R) :
  generate_signal "modulated" frequency (map (fun t => t + 2) time)
  = generate_signal "modulated" frequency time.
Proof.
  unfold generate_signal. simpl. rewrite map_map. apply map_ext. intros t.
  replace (2 * np.pi * 10 * (t + 2))
    with (2 * np.pi * 10 * t + 2 * INR 20 * PI)
    by (unfold np.pi; simpl; lra).
  replace (2 * np.pi * 0.5 * (t + 2))
    with (2 * np.pi * 0.5 * t + 2 * INR 1 * PI)
    by (unfold np.pi; simpl; lra).
  now rewrite !sin_period.
Qed.

(** X6. At the frequency 0 every kind but the modulated one is silent. *)
Theorem zero_frequency_is_silent (signal_type : string) (time : list R) :
  signal_type <> "modulated"%string ->
  generate_signal signal_type 0 time = np.zeros (List.length time).
Proof.
  intros Hm. apply String.eqb_neq in Hm.
  assert (Hsin : forall t, sin (2 * np.pi * 0 * t) = 0).
  { intros t. replace (2 * np.pi * 0 * t) with 0 by lra. apply sin_0. }
  assert (Hzero : forall f : R -> R,
             (forall t, f t = 0) ->
             map f time = np.zeros (List.length time)).
  { intros f Hf. unfold np.zeros.
    induction time as [| t time IH]; simpl; [reflexivity |].
    now rewrite Hf, IH. }
  unfold generate_signal. rewrite Hm.
  repeat match goal with
         | |- context [if ?c then _ else _] => destruct c
         end; apply Hzero; intros t; rewrite ?Hsin.
  - reflexivity.
  - apply sign_zero_iff. reflexivity.
  - unfold np.floor.
    assert (E : Zfloor (0.5 + t * 0) = 0%Z) by (apply Zfloor_eq; lra).
    rewrite E. lra.
  - reflexivity.
Qed.

(** * Further properties of the noise injection *)

Lemma draws_length {rng A : Type} (next : rng -> A * rng) (n : nat) (g : rng) :
  List.length (fst (draws next n g)) = n.
Proof.
  revert g. induction n as [| n IH]; intros g; simpl; [reflexivity |].
  destruct (next g) as [x g1]. specialize (IH g1).
  destruct (draws next n g1) as [xs g2]. simpl in *. now rewrite IH.
Qed.

Lemma draws_Forall {rng A : Type} (next : rng -> A * rng) (P : A -> Prop)
  (n : nat) (g : rng) :
  (forall g0, P (fst (next g0))) -> Forall P (fst (draws next n g)).
Proof.
  intros HP. revert g. induction n as [| n IH]; intros g; simpl.
  - constructor.
  - pose proof (HP g) as Hx. destruct (next g) as [x g1].
    specialize (IH g1). destruct (draws next n g1) as [xs g2].
    simpl in *. now constructor.
Qed.

Lemma add_length (x y : list R) :
  List.length x = List.length y ->
  List.length (np.add x y) = List.length x.
Proof.
  revert y. induction x as [| a x IH]; intros [| b y] Hlen; simpl in *;
    try reflexivity; try discriminate.
  f_equal. apply IH. congruence.
Qed.

Lemma add_nth (x y : list R) (k : nat) :
  List.length x = List.length y ->
  nth k (np.add x y) 0 = nth k x 0 + nth k y 0.
Proof.
  revert y k. induction x as [| a x IH]; intros [| b y] k Hlen;
    simpl in *; try discriminate.
  - destruct k; lra.
  - destruct k as [| k]; [reflexivity |]. apply IH. congruence.
Qed.

Lemma add_all_zero (x y : list R) :
  List.length x = List.length y -> Forall (fun v => v = 0) y ->
  np.add x y = x.
Proof.
  revert y. induction x as [| a x IH]; intros [| b y] Hlen Hy;
    simpl in *; try reflexivity; try discriminate.
  inversion Hy as [| ? ? Hb Hy']; subst.
  rewrite IH by (congruence || assumption). f_equal. lra.
Qed.

Lemma setitem_in_bounds (arr : list R) (i : nat) (v : R) :
  (i < List.length arr)%nat ->
  exists arr',
    np.setitem arr i v = Ok arr'
    /\ List.length arr' = List.length arr
    /\ (forall k d, k <> i -> nth k arr' d = nth k arr d)
    /\ (forall P : R -> Prop, Forall P arr -> P v -> Forall P arr').
Proof.
  revert i. induction arr as [| a arr IH]; intros i Hi; simpl in Hi;
    [lia |].
  destruct i as [| i]; simpl.
  - eexists. split; [reflexivity |]. split; [reflexivity |]. split.
    + intros [| k] d Hk; [congruence | reflexivity].
    + intros P HP Hv. inversion HP; subst. now constructor.
  - destruct (IH i) as (arr' & -> & Hlen & Hnth & HP); [lia |].
    simpl. eexists. split; [reflexivity |]. split; [simpl; congruence |].
    split.
    + intros [| k] d Hk; [reflexivity |]. simpl. apply Hnth. congruence.
    + intros P HPa Hv. inversion HPa; subst. constructor; auto.
Qed.

Lemma setitems_in_bounds (indices : list nat) (values arr : list R) :
  Forall (fun i => (i < List.length arr)%nat) indices ->
  exists arr',
    np.setitems arr indices values = Ok arr'
    /\ List.length arr' = List.length arr
    /\ (forall k d, ~ In k indices -> nth k arr' d = nth k arr d)
    /\ (forall P : R -> Prop, Forall P arr -> Forall P values -> Forall P arr').
Proof.
  revert values arr.
  induction indices as [| i indices IH]; intros values arr Hin.
  - exists arr. simpl. repeat split; auto.
  - destruct values as [| v values].
    + exists arr. simpl. repeat split; auto.
    + inversion Hin as [| ? ? Hi Hrest]; subst.
      destruct (setitem_in_bounds arr i v Hi)
        as (arr1 & E1 & Hlen1 & Hnth1 & HP1).
      destruct (IH values arr1) as (arr2 & E2 & Hlen2 & Hnth2 & HP2).
      { rewrite Hlen1. exact Hrest. }
      exists arr2. simpl. rewrite E1. simpl. split; [exact E2 |].
      split; [congruence |]. split.
      * intros k d Hk. rewrite Hnth2 by tauto. apply Hnth1.
        intros ->. apply Hk. now left.
      * intros P HPa HPv. inversion HPv; subst. apply HP2; auto.
Qed.

(** [int(0.05 * n)] is the integer quotient of [n] by 20. *)
Lemma num_impulses_is_quotient (n : nat) :
  Z.to_nat (py_int (0.05 * INR n)) = (n / 20)%nat.
Proof.
  pose proof (Nat.div_mod_eq n 20) as Hn.
  pose proof (Nat.mod_upper_bound n 20 ltac:(lia)) as Hr.
  set (q := (n / 20)%nat) in *. set (r := (n mod 20)%nat) in *.
  assert (HR : INR n = 20 * INR q + INR r).
  { rewrite Hn, plus_INR, mult_INR. simpl. lra. }
  assert (Hr0 : 0 <= INR r) by apply pos_INR.
  assert (Hr1 : INR r < 20).
  { apply lt_INR in Hr. simpl in Hr. lra. }
  assert (Hq0 : 0 <= INR q) by apply pos_INR.
  unfold py_int.
  assert (E : Rltb (0.05 * INR n) 0 = false) by (apply Rltb_false; lra).
  rewrite E.
  rewrite (Zfloor_eq (Z.of_nat q)).
  - apply Nat2Z.id.
  - rewrite <- INR_IZR_INZ. lra.
Qed.

Section NoiseFacts.
Context {rng : Type} `{RandomState rng}.

Lemma randint_in_range (high size : nat) (g : rng) :
  (size = 0 \/ 0 < high)%nat ->
  exists indices g',
    np.random.randint high size g = Ok (indices, g')
    /\ List.length indices = size
    /\ Forall (fun i => (i < high)%nat) indices.
Proof.
  intros Hs. unfold np.random.randint. destruct size as [| size].
  - exists [], g. repeat split. constructor.
  - destruct Hs as [Hs | Hs]; [discriminate |].
    assert (E : (high =? 0)%nat = false) by (apply Nat.eqb_neq; lia).
    rewrite E.
    pose proof (draws_length next_uint (S size) g) as Hlen.
    destruct (draws next_uint (S size) g) as [us g']. simpl in Hlen.
    exists (map (fun u => Nat.modulo u high) us), g'.
    split; [reflexivity |]. split; [now rewrite length_map |].
    apply Forall_forall. intros i Hi. apply in_map_iff in Hi.
    destruct Hi as [u [<- _]]. apply Nat.mod_upper_bound. lia.
Qed.

(** The impulse branch, taken apart: the positions drawn, the values
    written there, and the noise array that results. *)
Lemma impulse_noise_shape (signal : list R) (intensity : R) (g : rng) :
  Rabs (intensity * 2 - - intensity * 2) < float_overflow ->
  exists positions values noise g1 g',
    np.random.randint (List.length signal) (List.length signal / 20) g
    = Ok (positions, g1)
    /\ add_noise signal "impulse" intensity g = Ok (np.add signal noise, g')
    /\ List.length positions = (List.length signal / 20)%nat
    /\ Forall (fun i => (i < List.length signal)%nat) positions
    /\ values = map (fun u => - intensity * 2
                              + (intensity * 2 - - intensity * 2) * u)
                  (fst (draws next_double (List.length signal / 20) g1))
    /\ List.length noise = List.length signal
    /\ (forall k, ~ In k positions -> nth k noise 0 = 0)
    /\ (forall P : R -> Prop, P 0 -> Forall P values -> Forall P noise).
Proof.
  intros Hrange.
  unfold add_noise. cbn [String.eqb Ascii.eqb Bool.eqb].
  rewrite num_impulses_is_quotient.
  set (n := List.length signal).
  destruct (randint_in_range n (n / 20) g)
    as (positions & g1 & Er & Hlen & Hin).
  { destruct (Nat.eq_dec (n / 20) 0) as [E | E]; [now left |].
    right. destruct n; [simpl in E; congruence | lia]. }
  rewrite Er. cbn [bind].
  rewrite uniform_in_range by exact Hrange. cbn [bind].
  set (values := map _ (fst (draws next_double (n / 20) g1))).
  destruct (setitems_in_bounds positions values (np.zeros n))
    as (noise & -> & Hnlen & Hnth & HP).
  { unfold np.zeros. now rewrite repeat_length. }
  cbn [bind].
  exists positions, values, noise, g1, (snd (draws next_double (n / 20) g1)).
  unfold np.zeros in Hnlen, Hnth, HP. rewrite repeat_length in Hnlen.
  split; [reflexivity |].
  split; [reflexivity |]. split; [exact Hlen |]. split; [exact Hin |].
  split; [reflexivity |]. split; [exact Hnlen |]. split.
  - intros k Hk. rewrite Hnth by exact Hk.
    destruct (Nat.lt_ge_cases k n) as [Hlt | Hge].
    + apply nth_repeat_lt. exact Hlt.
    + apply nth_overflow. now rewrite repeat_length.
  - intros P H0 Hv. apply HP; [| exact Hv].
    apply Forall_forall. intros x Hx. apply repeat_spec in Hx. now subst.
Qed.

End NoiseFacts.

Lemma nth_Forall_default (P : R -> Prop) (l : list R) (k : nat) (d : R) :
  Forall P l -> P d -> P (nth k l d).
Proof.
  intros Hl Hd. destruct (Nat.lt_ge_cases k (List.length l)) as [Hlt | Hge].
  - rewrite Forall_forall in Hl. apply Hl. now apply nth_In.
  - now rewrite nth_overflow.
Qed.

Section NoiseExtras.
Context {rng : Type} `{RandomState rng}.

Lemma add_noise_returns (signal : list R) (noise_type : string)
  (intensity : R) (g : rng) :
  noise_accepted noise_type intensity ->
  exists out g',
    add_noise signal noise_type intensity g = Ok (out, g')
    /\ List.length out = List.length signal.
Proof.
  intros [Hint Himp].
  destruct (noise_type =? "gaussian")%string eqn:Eg.
  { apply String.eqb_eq in Eg. specialize (Hint Eg). subst.
    unfold add_noise, np.random.normal.
    cbn [String.eqb Ascii.eqb Bool.eqb].
    assert (E : Rltb intensity 0 = false) by now apply Rltb_false.
    rewrite E.
    pose proof (draws_length next_gauss (List.length signal) g) as Hlen.
    destruct (draws next_gauss (List.length signal) g) as [zs g'].
    simpl in Hlen. cbn [bind]. do 2 eexists. split; [reflexivity |].
    apply add_length. now rewrite length_map. }
  destruct (noise_type =? "impulse")%string eqn:Ei.
  { apply String.eqb_eq in Ei. subst.
    destruct (impulse_noise_shape signal intensity g (Himp eq_refl))
      as (pos & vals & noise & g1 & g' & _ & -> & _ & _ & _ & Hlen & _).
    do 2 eexists. split; [reflexivity |]. now apply add_length. }
  unfold add_noise. rewrite Eg, Ei.
  destruct (noise_type =? "frequency_interference")%string.
  - rewrite uniform1_interference. cbn [bind].
    do 2 eexists. split; [reflexivity |]. apply add_length.
    unfold np.arange. now rewrite !length_map, length_seq.
  - cbn [bind]. do 2 eexists. split; [reflexivity |].
    apply add_length. unfold np.zeros. now rewrite repeat_length.
Qed.

(** X7. [add_noise] fails in two cases only: Gaussian noise with a
    negative intensity, which [np.random.normal] refuses, and impulse noise
    with an intensity whose range, from [-intensity * 2] to
    [intensity * 2], overflows, which [np.random.uniform] refuses whatever
    the length of the signal.  In every other case it returns an array of
    the length of the input. *)
Theorem add_noise_outcome (signal : list R) (noise_type : string)
  (intensity : R) (g : rng) :
  (noise_type = "gaussian"%string -> intensity < 0 ->
   add_noise signal noise_type intensity g = Raise (ValueError "scale < 0"))
  /\ (noise_type = "impulse"%string ->
      float_overflow <= Rabs (intensity * 2 - - intensity * 2) ->
      add_noise signal noise_type intensity g
      = Raise (OverflowError "Range exceeds valid bounds"))
  /\ (noise_accepted noise_type intensity ->
      exists out g',
        add_noise signal noise_type intensity g = Ok (out, g')
        /\ List.length out = List.length signal).
Proof.
  split; [| split].
  - intros -> Hneg. unfold add_noise, np.random.normal.
    cbn [String.eqb Ascii.eqb Bool.eqb].
    assert (E : Rltb intensity 0 = true) by now apply Rltb_true.
    now rewrite E.
  - intros ->. apply add_noise_impulse_overflow.
  - apply add_noise_returns.
Qed.

(** X8. With the intensity 0 every noise kind returns the signal
    unchanged. *)
Theorem zero_intensity_adds_nothing (signal : list R) (noise_type : string)
  (g : rng) :
  exists g', add_noise signal noise_type 0 g = Ok (signal, g').
Proof.
  destruct (noise_type =? "gaussian")%string eqn:Eg.
  { unfold add_noise, np.random.normal. rewrite Eg.
    assert (E : Rltb 0 0 = false) by (apply Rltb_false; lra).
    rewrite E.
    pose proof (draws_length next_gauss (List.length signal) g) as Hlen.
    destruct (draws next_gauss (List.length signal) g) as [zs g'].
    simpl in Hlen. cbn [bind]. exists g'.
    rewrite add_all_zero; [reflexivity | now rewrite length_map |].
    apply Forall_forall. intros v Hv. apply in_map_iff in Hv.
    destruct Hv as [z [<- _]]. lra. }
  destruct (noise_type =? "impulse")%string eqn:Ei.
  { apply String.eqb_eq in Ei. subst.
    destruct (impulse_noise_shape signal 0 g)
      as (pos & vals & noise & g1 & g' & _ & -> & _ & _ & Hvals & Hlen & _
          & HP).
    { rewrite Rabs_right by lra. pose proof float_overflow_large. lra. }
    exists g'. rewrite add_all_zero; [reflexivity | now rewrite Hlen |].
    apply HP; [reflexivity |].
    rewrite Hvals.
    apply Forall_forall. intros v Hv. apply in_map_iff in Hv.
    destruct Hv as [u [<- _]]. lra. }
  unfold add_noise. rewrite Eg, Ei.
  destruct (noise_type =? "frequency_interference")%string.
  - rewrite uniform1_interference. cbn [bind].
    eexists. rewrite add_all_zero; [reflexivity | |].
    + unfold np.arange. now rewrite !length_map, length_seq.
    + apply Forall_forall. intros v Hv. apply in_map_iff in Hv.
      destruct Hv as [k [<- _]]. lra.
  - cbn [bind]. exists g. now rewrite add_zeros.
Qed.

(** X9. Impulse noise touches few samples.  With an intensity whose range
    does not overflow and a signal of [n] samples, the positions are the
    [n / 20] (integer division) integers that
    [np.random.randint(0, n, n / 20)] draws; they are all inside the signal,
    and outside them the output equals the input. *)
Theorem impulse_noise_is_sparse (signal : list R) (intensity : R) (g : rng) :
  Rabs (intensity * 2 - - intensity * 2) < float_overflow ->
  exists positions g1 out g',
    np.random.randint (List.length signal) (List.length signal / 20) g
    = Ok (positions, g1)
    /\ add_noise signal "impulse" intensity g = Ok (out, g')
    /\ List.length positions = (List.length signal / 20)%nat
    /\ Forall (fun i => (i < List.length signal)%nat) positions
    /\ List.length out = List.length signal
    /\ forall k, ~ In k positions -> nth k out 0 = nth k signal 0.
Proof.
  intros Hrange.
  destruct (impulse_noise_shape signal intensity g Hrange)
    as (pos & vals & noise & g1 & g' & Er & E & Hpos & Hin & _ & Hlen & Hnth
        & _).
  exists pos, g1, (np.add signal noise), g'.
  split; [exact Er |].
  split; [exact E |]. split; [exact Hpos |]. split; [exact Hin |].
  split; [now apply add_length |].
  intros k Hk. rewrite add_nth by congruence. rewrite Hnth by exact Hk. lra.
Qed.

(** X10. A signal of fewer than 20 samples gets no impulse at all: with an
    intensity whose range does not overflow the output is the input and no
    random number is drawn; with one whose range overflows the call raises
    all the same, since [np.random.uniform] tests the range before the
    size. *)
Theorem impulse_noise_skips_short_signals (signal : list R) (intensity : R)
  (g : rng) :
  (List.length signal < 20)%nat ->
  (Rabs (intensity * 2 - - intensity * 2) < float_overflow ->
   add_noise signal "impulse" intensity g = Ok (signal, g))
  /\ (float_overflow <= Rabs (intensity * 2 - - intensity * 2) ->
      add_noise signal "impulse" intensity g
      = Raise (OverflowError "Range exceeds valid bounds")).
Proof.
  intros Hshort. split.
  - intros Hrange. unfold add_noise. cbn [String.eqb Ascii.eqb Bool.eqb].
    rewrite num_impulses_is_quotient, Nat.div_small by exact Hshort.
    cbn [np.random.randint bind].
    rewrite uniform_in_range by exact Hrange.
    simpl. now rewrite add_zeros.
  - apply add_noise_impulse_overflow.
Qed.

(** X11. Narrowband interference moves no sample by more than the
    intensity. *)
Theorem interference_is_bounded (signal out : list R) (intensity : R)
  (g g' : rng) :
  add_noise signal "frequency_interference" intensity g = Ok (out, g') ->
  forall k : nat, Rabs (nth k out 0 - nth k signal 0) <= Rabs intensity.
Proof.
  unfold add_noise. cbn [String.eqb Ascii.eqb Bool.eqb].
  rewrite uniform1_interference. cbn [bind].
  set (f := 0.5 + (5 - 0.5) * fst (next_double g)).
  intros [= <- <-] k.
  rewrite add_nth by (unfold np.arange; now rewrite !length_map, length_seq).
  replace (nth k signal 0 + _ - nth k signal 0)
    with (nth k (map (fun j => intensity * sin (2 * np.pi * f * j))
                   (np.arange (List.length signal))) 0) by lra.
  apply (nth_Forall_default (fun v => Rabs v <= Rabs intensity)).
  - apply Forall_forall. intros v Hv. apply in_map_iff in Hv.
    destruct Hv as [j [<- _]]. rewrite Rabs_mult.
    pose proof (SIN_bound (2 * np.pi * f * j)) as Hs.
    assert (Hsin : Rabs (sin (2 * np.pi * f * j)) <= 1)
      by (apply Rabs_le; lra).
    pose proof (Rabs_pos intensity). nra.
  - rewrite Rabs_R0. apply Rabs_pos.
Qed.

(** X12. With uniform deviates in the unit interval, impulse noise moves
    no sample by more than twice the intensity. *)
Theorem impulse_noise_is_bounded (signal out : list R) (intensity : R)
  (g g' : rng) :
  (forall g0 : rng, 0 <= fst (next_double g0) <= 1) ->
  add_noise signal "impulse" intensity g = Ok (out, g') ->
  forall k : nat, Rabs (nth k out 0 - nth k signal 0) <= 2 * Rabs intensity.
Proof.
  intros Hunit Hout k.
  assert (Hrange : Rabs (intensity * 2 - - intensity * 2) < float_overflow).
  { destruct (Rlt_dec (Rabs (intensity * 2 - - intensity * 2)) float_overflow)
      as [Hlt | Hge]; [exact Hlt |].
    rewrite add_noise_impulse_overflow in Hout by lra. discriminate. }
  destruct (impulse_noise_shape signal intensity g Hrange)
    as (pos & vals & noise & g1 & g2 & _ & E & _ & _ & Hvals & Hlen & _ & HP).
  rewrite E in Hout. injection Hout as <- <-.
  rewrite add_nth by congruence.
  replace (nth k signal 0 + nth k noise 0 - nth k signal 0)
    with (nth k noise 0) by lra.
  apply (nth_Forall_default (fun v => Rabs v <= 2 * Rabs intensity)).
  - apply HP.
    + rewrite Rabs_R0. pose proof (Rabs_pos intensity). lra.
    + rewrite Hvals.
      pose proof (draws_Forall next_double (fun u => 0 <= u <= 1)
                    (List.length signal / 20) g1 Hunit) as Hus.
      apply Forall_forall. intros v Hv.
      apply in_map_iff in Hv. destruct Hv as [u [<- Hu]].
      rewrite Forall_forall in Hus. specialize (Hus u Hu).
      replace (- intensity * 2 + (intensity * 2 - - intensity * 2) * u)
        with (intensity * (2 * (2 * u - 1))) by lra.
      rewrite Rabs_mult.
      assert (Hb : Rabs (2 * (2 * u - 1)) <= 2) by (apply Rabs_le; lra).
      pose proof (Rabs_pos intensity). nra.
  - rewrite Rabs_R0. pose proof (Rabs_pos intensity). lra.
Qed.

End NoiseExtras.

(** * Further properties of the filters *)

(** ** The recursive filter is causal and linear *)

Lemma df2t_firstn (b a x z : list R) (k : nat) :
  df2t b a z (firstn k x) = firstn k (df2t b a z x).
Proof.
  revert z k. induction x as [| xn x IH]; intros z [| k]; simpl;
    try reflexivity.
  now rewrite IH.
Qed.

Lemma linear_filter_firstn (b a x y : list R) (k : nat) :
  linear_filter b a x = Ok y ->
  linear_filter b a (firstn k x) = Ok (firstn k y).
Proof.
  unfold linear_filter. destruct a as [| a0 a]; [discriminate |].
  destruct (Reqb a0 0); [discriminate |].
  intros [= <-]. now rewrite df2t_firstn.
Qed.

Lemma all_zero_repeat (l : list R) :
  Forall (fun v => v = 0) l -> l = repeat 0 (List.length l).
Proof.
  induction 1 as [| v l Hv _ IH]; simpl; [reflexivity |].
  now rewrite Hv, <- IH.
Qed.

Lemma hd_all_zero (z : list R) : Forall (fun v => v = 0) z -> hd 0 z = 0.
Proof. destruct 1; simpl; auto. Qed.

Lemma df2t_state_all_zero (b a z : list R) (xn yn : R) :
  Forall (fun v => v = 0) z -> xn = 0 -> yn = 0 ->
  Forall (fun v => v = 0) (df2t_state b a z xn yn).
Proof.
  intros Hz -> ->. unfold df2t_state.
  apply Forall_forall. intros v Hv. apply in_map_iff in Hv.
  destruct Hv as [[zk [bk ak]] [<- Hin]].
  apply in_combine_l in Hin.
  assert (Hzk : zk = 0).
  { apply in_app_or in Hin. destruct Hin as [Hin | [<- | []]]; [| reflexivity].
    rewrite Forall_forall in Hz. apply Hz.
    destruct z; simpl in Hin; [contradiction | now right]. }
  subst. lra.
Qed.

Lemma df2t_all_zero (b a z : list R) (n : nat) :
  Forall (fun v => v = 0) z ->
  Forall (fun v => v = 0) (df2t b a z (repeat 0 n)).
Proof.
  revert z. induction n as [| n IH]; intros z Hz; simpl; constructor.
  - rewrite (hd_all_zero z Hz). lra.
  - apply IH. apply df2t_state_all_zero; auto.
    rewrite (hd_all_zero z Hz). lra.
Qed.

Lemma linear_filter_zeros (b a y : list R) (n : nat) :
  linear_filter b a (repeat 0 n) = Ok y -> y = repeat 0 n.
Proof.
  unfold linear_filter. destruct a as [| a0 a]; [discriminate |].
  destruct (Reqb a0 0); [discriminate |].
  intros [= <-].
  rewrite (all_zero_repeat (df2t _ _ _ (repeat 0 n))).
  - now rewrite df2t_length, repeat_length.
  - apply df2t_all_zero. apply Forall_forall. intros v Hv.
    now apply repeat_spec in Hv.
Qed.

(** Scaling the delay line and the input scales the output. *)
Lemma df2t_state_scale (c : R) (b a z : list R) (xn yn : R) :
  df2t_state b a (map (Rmult c) z) (c * xn) (c * yn)
  = map (Rmult c) (df2t_state b a z xn yn).
Proof.
  unfold df2t_state.
  assert (Htl : tl (map (Rmult c) z) ++ [0] = map (Rmult c) (tl z ++ [0])).
  { destruct z; simpl; rewrite ?map_app; simpl; now rewrite Rmult_0_r. }
  rewrite Htl. generalize (tl z ++ [0]) (combine (tl b) (tl a)).
  intros zs. induction zs as [| zk zs IH]; intros [| [bk ak] ps]; simpl;
    try reflexivity.
  rewrite IH. f_equal. lra.
Qed.

Lemma df2t_scale (c : R) (b a x z : list R) :
  df2t b a (map (Rmult c) z) (map (Rmult c) x)
  = map (Rmult c) (df2t b a z x).
Proof.
  revert z. induction x as [| xn x IH]; intros z; simpl; [reflexivity |].
  assert (Ey : hd 0 (map (Rmult c) z) + hd 0 b * (c * xn)
               = c * (hd 0 z + hd 0 b * xn)).
  { destruct z; simpl; lra. }
  rewrite Ey, df2t_state_scale, IH. reflexivity.
Qed.

Lemma add_app_one (l1 l2 : list R) (u v : R) :
  List.length l1 = List.length l2 ->
  np.add (l1 ++ [u]) (l2 ++ [v]) = np.add l1 l2 ++ [u + v].
Proof.
  revert l2. induction l1 as [| p l1 IH]; intros [| q l2] Hlen;
    simpl in *; try discriminate; [reflexivity |].
  rewrite IH by congruence. reflexivity.
Qed.

(** Adding two delay lines and two inputs adds the outputs. *)
Lemma df2t_state_add (b a z1 z2 : list R) (x1 x2 y1 y2 : R) :
  List.length z1 = List.length z2 ->
  df2t_state b a (np.add z1 z2) (x1 + x2) (y1 + y2)
  = np.add (df2t_state b a z1 x1 y1) (df2t_state b a z2 x2 y2).
Proof.
  intros Hlen. unfold df2t_state.
  assert (Htl : tl (np.add z1 z2) ++ [0]
                = np.add (tl z1 ++ [0]) (tl z2 ++ [0])).
  { destruct z1, z2; simpl in *; try discriminate.
    - f_equal. lra.
    - rewrite add_app_one by congruence. do 2 f_equal. lra. }
  rewrite Htl.
  assert (Hlen' : List.length (tl z1 ++ [0]) = List.length (tl z2 ++ [0])).
  { rewrite !length_app. destruct z1, z2; simpl in *; congruence. }
  revert Hlen'.
  generalize (tl z1 ++ [0]) (tl z2 ++ [0]) (combine (tl b) (tl a)).
  intros l1. induction l1 as [| p l1 IH]; intros [| q l2] ps Hl;
    simpl in *; try discriminate; [reflexivity |].
  destruct ps as [| [bk ak] ps]; simpl; [reflexivity |].
  rewrite IH by congruence. f_equal. lra.
Qed.

Lemma df2t_state_length (b a z1 z2 : list R) (x1 x2 y1 y2 : R) :
  List.length z1 = List.length z2 ->
  List.length (df2t_state b a z1 x1 y1)
  = List.length (df2t_state b a z2 x2 y2).
Proof.
  intros Hlen. unfold df2t_state.
  rewrite !length_map, !length_combine, !length_app.
  destruct z1, z2; simpl in *; congruence.
Qed.

Lemma df2t_add (b a x1 x2 z1 z2 : list R) :
  List.length z1 = List.length z2 -> List.length x1 = List.length x2 ->
  df2t b a (np.add z1 z2) (np.add x1 x2)
  = np.add (df2t b a z1 x1) (df2t b a z2 x2).
Proof.
  revert x2 z1 z2. induction x1 as [| p x1 IH]; intros [| q x2] z1 z2 Hz Hx;
    simpl in *; try discriminate; [reflexivity |].
  assert (Ey : hd 0 (np.add z1 z2) + hd 0 b * (p + q)
               = (hd 0 z1 + hd 0 b * p) + (hd 0 z2 + hd 0 b * q)).
  { destruct z1, z2; simpl in *; try discriminate; lra. }
  rewrite Ey, df2t_state_add by exact Hz.
  rewrite IH; [reflexivity | now apply df2t_state_length | congruence].
Qed.

Lemma pad_length (n : nat) (l : list R) :
  (List.length l <= n)%nat -> List.length (pad n l) = n.
Proof.
  intros Hle. unfold pad. rewrite length_app, repeat_length. lia.
Qed.

(** A delay line at rest stays at rest on a silent sample. *)
Lemma df2t_state_rest (b a : list R) (m : nat) :
  List.length b = S m -> List.length a = S m ->
  df2t_state b a (repeat 0 m) 0 (hd 0 (repeat 0 m) + hd 0 b * 0)
  = repeat 0 m.
Proof.
  intros Hb Ha.
  assert (Hz : Forall (fun v => v = 0) (repeat 0 m)).
  { apply Forall_forall. intros v Hv. now apply repeat_spec in Hv. }
  rewrite (all_zero_repeat (df2t_state b a (repeat 0 m) 0 _)).
  - f_equal. unfold df2t_state.
    rewrite length_map, !length_combine, length_app.
    destruct b as [| b0 b]; [discriminate |].
    destruct a as [| a0 a]; [discriminate |].
    simpl in Hb, Ha. injection Hb as Hb. injection Ha as Ha.
    simpl tl. rewrite Hb, Ha.
    destruct m as [| m]; simpl; [reflexivity |].
    rewrite repeat_length. lia.
  - apply df2t_state_all_zero; [exact Hz | reflexivity |].
    rewrite (hd_all_zero _ Hz). lra.
Qed.

Lemma df2t_delay (b a x : list R) (m : nat) :
  List.length b = S m -> List.length a = S m ->
  df2t b a (repeat 0 m) (0 :: x) = 0 :: df2t b a (repeat 0 m) x.
Proof.
  intros Hb Ha. cbn [df2t]. rewrite (df2t_state_rest b a m Hb Ha).
  f_equal.
  assert (Hz : Forall (fun v => v = 0) (repeat 0 m)).
  { apply Forall_forall. intros v Hv. now apply repeat_spec in Hv. }
  rewrite (hd_all_zero _ Hz). lra.
Qed.

Lemma linear_filter_delay (b a x y : list R) :
  linear_filter b a x = Ok y -> linear_filter b a (0 :: x) = Ok (0 :: y).
Proof.
  unfold linear_filter. destruct a as [| a0 a]; [discriminate |].
  destruct (Reqb a0 0); [discriminate |]. cbv zeta.
  remember (Nat.max (List.length (a0 :: a)) (List.length b)) as K eqn:HK.
  assert (HK1 : (1 <= K /\ List.length b <= K
                 /\ List.length (a0 :: a) <= K)%nat)
    by (subst K; cbn [List.length]; lia).
  clear HK. destruct HK1 as (H1 & Hb & Ha).
  intros [= <-]. f_equal.
  apply df2t_delay.
  - rewrite length_map, pad_length; lia.
  - cbn [List.length] in *.
    rewrite length_map, length_app, repeat_length. lia.
Qed.

Lemma zeros_superpose (c : R) (m : nat) :
  np.add (map (Rmult c) (repeat 0 m)) (repeat 0 m) = repeat 0 m.
Proof.
  induction m as [| m IH]; simpl; [reflexivity |].
  rewrite IH. f_equal. lra.
Qed.

Lemma linear_filter_superposition (c : R) (b a x1 x2 y1 y2 : list R) :
  List.length x1 = List.length x2 ->
  linear_filter b a x1 = Ok y1 -> linear_filter b a x2 = Ok y2 ->
  linear_filter b a (np.add (map (Rmult c) x1) x2)
  = Ok (np.add (map (Rmult c) y1) y2).
Proof.
  intros Hlen. unfold linear_filter.
  destruct a as [| a0 a]; [discriminate |].
  destruct (Reqb a0 0); [discriminate |].
  intros [= <-] [= <-]. f_equal.
  rewrite <- df2t_scale.
  rewrite <- df2t_add;
    [| now rewrite length_map, !repeat_length
     | now rewrite length_map].
  f_equal. symmetry. apply zeros_superpose.
Qed.

(** ** Filter-like transformations *)

Lemma filter_like_ext (F G : list R -> result (list R)) :
  (forall s, F s = G s) -> filter_like G -> filter_like F.
Proof.
  intros HFG [Hu Hl Hc Hlin Hr Hs]. constructor.
  - intros s s' e. rewrite !HFG. apply Hu.
  - intros s out. rewrite HFG. apply Hl.
  - intros s out k. rewrite !HFG. apply Hc.
  - intros c s1 s2 o1 o2. rewrite !HFG. apply Hlin.
  - intros n out. rewrite HFG. apply Hr.
  - intros s out. rewrite !HFG. apply Hs.
Qed.

Lemma filter_like_id : filter_like Ok.
Proof.
  constructor.
  - discriminate.
  - now intros s out [= <-].
  - now intros s out k [= <-].
  - now intros c s1 s2 o1 o2 _ [= <-] [= <-].
  - now intros n out [= <-].
  - now intros s out [= <-].
Qed.

(** One call of [lfilter] with coefficients whose denominator is monic
    and has two coefficients or more. *)
Lemma filter_like_stage (r : result (list R * list R)) :
  (forall b a, r = Ok (b, a) -> exists a1 a_tail, a = 1 :: a1 :: a_tail) ->
  filter_like (fun s => '(b, a) <- r ;; lfilter b a s).
Proof.
  intros Hmonic. destruct r as [[b a] | e0]; cbn [bind].
  - destruct (Hmonic b a eq_refl) as (a1 & t & ->).
    change (filter_like (fun s => linear_filter b (1 :: a1 :: t) s)).
    constructor.
    + intros s s' e He.
      destruct (lfilter_monic b t s a1) as [y [Ey _]].
      rewrite lfilter_recursive in Ey. congruence.
    + intros s out. apply linear_filter_length.
    + intros s out k. apply linear_filter_firstn.
    + intros c s1 s2 o1 o2. apply linear_filter_superposition.
    + intros n out. unfold np.zeros. apply linear_filter_zeros.
    + intros s out. apply linear_filter_delay.
  - constructor; intros; congruence.
Qed.

Lemma filter_like_compose (F G : list R -> result (list R)) :
  filter_like F -> filter_like G ->
  filter_like (fun s => m <- F s ;; G m).
Proof.
  intros [Fu Fl Fc Flin Fr Fs] [Gu Gl Gc Glin Gr Gs]. constructor.
  - intros s s' e.
    destruct (F s) as [m | e1] eqn:E1; cbn [bind].
    + intros HG. destruct (F s') as [m' | e2] eqn:E2; cbn [bind].
      * now apply (Gu m).
      * apply (Fu s' s) in E2. congruence.
    + intros [= <-]. now rewrite (Fu s s' e1 E1).
  - intros s out. destruct (F s) as [m | e1] eqn:E1; cbn [bind];
      [| discriminate].
    intros HG. rewrite (Gl m out HG). now apply Fl.
  - intros s out k. destruct (F s) as [m | e1] eqn:E1; cbn [bind];
      [| discriminate].
    intros HG. rewrite (Fc s m k E1). cbn [bind]. now apply Gc.
  - intros c s1 s2 o1 o2 Hlen.
    destruct (F s1) as [m1 | e1] eqn:E1; cbn [bind]; [| discriminate].
    destruct (F s2) as [m2 | e2] eqn:E2; cbn [bind]; [| discriminate].
    intros H1 H2. rewrite (Flin c s1 s2 m1 m2 Hlen E1 E2). cbn [bind].
    apply Glin; [| assumption | assumption].
    rewrite (Fl s1 m1 E1), (Fl s2 m2 E2). exact Hlen.
  - intros n out. destruct (F (np.zeros n)) as [m | e1] eqn:E1; cbn [bind];
      [| discriminate].
    rewrite (Fr n m E1). apply Gr.
  - intros s out. destruct (F s) as [m | e1] eqn:E1; cbn [bind];
      [| discriminate].
    intros HG. rewrite (Fs s m E1). cbn [bind]. now apply Gs.
Qed.

Lemma filter_like_optional (flag : bool) (F : list R -> result (list R)) :
  filter_like F -> filter_like (fun s => if flag then F s else Ok s).
Proof.
  intros HF. destruct flag; [exact HF | exact filter_like_id].
Qed.

Section FilterExtras.
Variable design : btype -> nat -> list R -> list R * list R.

Lemma butter_bandstop_monic (lowcut highcut fs : R) (order : nat)
  (b a : list R) :
  (1 <= order)%nat ->
  butter_bandstop design lowcut highcut fs order = Ok (b, a) ->
  exists a1 a_tail, a = 1 :: a1 :: a_tail.
Proof.
  intros Horder. unfold butter_bandstop.
  destruct (py_div lowcut (0.5 * fs)) as [lo | e]; cbn [bind];
    [| discriminate].
  destruct (py_div highcut (0.5 * fs)) as [hi | e]; cbn [bind];
    [| discriminate].
  now apply butter_monic.
Qed.

Lemma single_stage_filter_like (order : nat) (cutoff fs : R) (bt : btype) :
  (1 <= order)%nat ->
  filter_like
    (fun s => '(b, a) <- butter_filter design order cutoff fs bt ;;
              lfilter b a s).
Proof.
  intros Horder. apply filter_like_stage. intros b a.
  now apply butter_filter_monic.
Qed.

(** X13. [apply_filter] behaves as a causal linear filter started at rest,
    for every filter type, cutoff and sample rate: whether it raises does
    not depend on the samples, the output has the length of the input, an
    output sample depends on the input up to that sample only, the output
    of [c * s1 + s2] is [c * o1 + o2], silence gives silence, and a
    delayed input gives the delayed output. *)
Theorem apply_filter_is_filter_like (filter_type : string) (cutoff fs : R) :
  filter_like (fun signal => apply_filter design signal filter_type cutoff fs).
Proof.
  unfold apply_filter. apply filter_like_stage. intros b a.
  destruct (filter_type =? "Low-Pass (RC)")%string.
  { rewrite butter_lowpass_is_filter. apply butter_filter_monic. lia. }
  destruct (filter_type =? "High-Pass (RC)")%string.
  { rewrite butter_highpass_is_filter. apply butter_filter_monic. lia. }
  destruct (filter_type =? "Band-Stop")%string.
  { apply butter_bandstop_monic. lia. }
  discriminate.
Qed.

Lemma band_pass_two_stages (signal : list R) (lowcut highcut fs : R) :
  apply_band_pass design signal lowcut highcut fs
  = (m <- ('(b, a) <- butter_filter design 4 highcut fs Low ;;
           lfilter b a signal) ;;
     '(b, a) <- butter_filter design 4 lowcut fs High ;; lfilter b a m).
Proof.
  unfold apply_band_pass.
  destruct (butter_filter design 4 highcut fs Low) as [[b1 a1] | e] eqn:E1;
    cbn [bind]; [| reflexivity].
  assert (H4 : (1 <= 4)%nat) by lia.
  destruct (butter_filter_monic design 4 highcut fs Low b1 a1 H4 E1)
    as (c1 & t1 & ->).
  destruct (lfilter_monic b1 t1 signal c1) as [low_passed [-> _]].
  cbn [bind].
  destruct (butter_filter design 4 lowcut fs High) as [[b2 a2] | e];
    cbn [bind]; [| reflexivity].
  apply bind_Ok.
Qed.

Lemma band_pass_filter_like (lowcut highcut fs : R) :
  filter_like (fun signal => apply_band_pass design signal lowcut highcut fs).
Proof.
  apply (filter_like_ext _ _ (fun s => band_pass_two_stages s lowcut highcut fs)).
  apply filter_like_compose; apply single_stage_filter_like; lia.
Qed.

(** X14. The three Butterworth filters of the audio application,
    [apply_high_pass], [apply_low_pass] and the two-stage
    [apply_band_pass], behave as causal linear filters started at rest,
    for all cutoffs and sample rates. *)
Theorem audio_filters_are_filter_like (cutoff lowcut highcut fs : R) :
  filter_like (fun signal => apply_high_pass design signal cutoff fs)
  /\ filter_like (fun signal => apply_low_pass design signal cutoff fs)
  /\ filter_like
       (fun signal => apply_band_pass design signal lowcut highcut fs).
Proof.
  split; [apply single_stage_filter_like; lia |].
  split; [apply single_stage_filter_like; lia |].
  apply band_pass_filter_like.
Qed.

End FilterExtras.

(** ** The notch filter and the filter chain of the audio application *)

Lemma iirnotch_monic (w0 Q : R) (b a : list R) :
  iirnotch w0 Q = Ok (b, a) -> exists a1 a_tail, a = 1 :: a1 :: a_tail.
Proof.
  unfold iirnotch. destruct (Rltb 1 w0 || Rltb w0 0); [discriminate |].
  destruct (py_div w0 Q) as [bw | e]; cbn [bind]; [| discriminate].
  intros [= <- <-]. eauto.
Qed.

Lemma iirnotch_accepts (w0 Q : R) :
  0 <= w0 <= 1 -> Q <> 0 -> succeeds (iirnotch w0 Q).
Proof.
  intros [H0 H1] HQ. unfold iirnotch, succeeds.
  assert (E1 : Rltb 1 w0 = false) by now apply Rltb_false.
  assert (E0 : Rltb w0 0 = false) by now apply Rltb_false.
  rewrite E1, E0, py_div_nonzero by exact HQ. cbn [orb bind]. eauto.
Qed.

Lemma iirnotch_rejects (w0 Q : R) :
  w0 < 0 \/ 1 < w0 \/ Q = 0 -> raises (iirnotch w0 Q).
Proof.
  intros Hbad. unfold iirnotch, raises.
  destruct (Rltb 1 w0 || Rltb w0 0) eqn:E; [eauto |].
  apply orb_false_iff in E. destruct E as [E1 E0].
  apply Rltb_false in E1, E0.
  destruct Hbad as [Hb | [Hb | Hb]]; try lra.
  rewrite py_div_zero by exact Hb. cbn [bind]. eauto.
Qed.

Lemma notch_filter_like (notch_freq fs quality : R) :
  filter_like (fun signal => apply_notch_filter signal notch_freq fs quality).
Proof.
  unfold apply_notch_filter.
  destruct (py_div notch_freq (0.5 * fs)) as [w | e]; cbn [bind].
  - apply filter_like_stage. intros b a. apply iirnotch_monic.
  - constructor; intros; congruence.
Qed.

(** X15. The notch filter behaves as a causal linear filter started at
    rest.  It returns when the sample rate and the quality are not zero
    and the notch frequency lies between 0 and the Nyquist frequency, both
    ends included, and raises otherwise. *)
Theorem apply_notch_filter_outcome (signal : list R)
  (notch_freq fs quality : R) :
  filter_like (fun s => apply_notch_filter s notch_freq fs quality)
  /\ (fs <> 0 -> quality <> 0 -> 0 <= normalized notch_freq fs <= 1 ->
      exists out,
        apply_notch_filter signal notch_freq fs quality = Ok out
        /\ List.length out = List.length signal)
  /\ (fs = 0 \/ quality = 0
      \/ normalized notch_freq fs < 0 \/ 1 < normalized notch_freq fs ->
      raises (apply_notch_filter signal notch_freq fs quality)).
Proof.
  split; [apply notch_filter_like |]. split.
  - intros Hfs HQ Hw. unfold apply_notch_filter.
    rewrite py_div_nonzero by lra. cbn [bind].
    destruct (iirnotch_accepts _ quality Hw HQ) as [[b a] E].
    fold (normalized notch_freq fs). rewrite E. cbn [bind].
    destruct (iirnotch_monic _ _ _ _ E) as (a1 & t & ->).
    apply lfilter_monic.
  - intros Hbad. unfold apply_notch_filter.
    destruct (Req_dec_T fs 0) as [Hz | Hnz].
    + rewrite py_div_zero by lra. cbn [bind]. unfold raises. eauto.
    + rewrite py_div_nonzero by lra. cbn [bind].
      fold (normalized notch_freq fs).
      destruct (iirnotch_rejects (normalized notch_freq fs) quality)
        as [e ->]; [tauto |].
      cbn [bind]. unfold raises. eauto.
Qed.

Section ChainExtras.
Variable design : btype -> nat -> list R -> list R * list R.

Lemma chain_filter_like (c : controls) (fs : R) :
  filter_like (apply_selected design c fs).
Proof.
  unfold apply_selected.
  apply (filter_like_compose
           (fun s => if high_pass_var c
                     then apply_high_pass design s (high_pass_scale c) fs
                     else Ok s)).
  { apply filter_like_optional.
    apply (single_stage_filter_like design 4 (high_pass_scale c) fs High).
    lia. }
  apply (filter_like_compose
           (fun s => if low_pass_var c
                     then apply_low_pass design s (low_pass_scale c) fs
                     else Ok s)).
  { apply filter_like_optional.
    apply (single_stage_filter_like design 4 (low_pass_scale c) fs Low).
    lia. }
  apply (filter_like_compose
           (fun s => if band_pass_var c
                     then apply_band_pass design s (band_pass_low_scale c)
                            (band_pass_high_scale c) fs
                     else Ok s)).
  { apply filter_like_optional.
    apply band_pass_filter_like. }
  apply (filter_like_compose
           (fun s => if notch_var c
                     then apply_notch_filter s (notch_scale c) fs 30
                     else Ok s)).
  { apply filter_like_optional. apply notch_filter_like. }
  apply filter_like_id.
Qed.


(** X16. Whatever filters are ticked and wherever the sliders stand, the
    chain that [process_audio] applies (high-pass, low-pass, band-pass,
    notch, in this order) behaves as one causal linear filter started at
    rest; in particular the processed audio has the length of the loaded
    audio. *)
Theorem apply_selected_is_filter_like (c : controls) (fs : R) :
  filter_like (apply_selected design c fs)
  /\ forall signal processed,
      apply_selected design c fs signal = Ok processed ->
      List.length processed = List.length signal.
Proof.
  pose proof (chain_filter_like c fs) as Hfl.
  split; [exact Hfl |]. destruct Hfl as [_ Hlen _ _ _ _]. exact Hlen.
Qed.

End ChainExtras.

(** ** The audio application *)

Lemma np_linspace_length (start stop : R) (num : nat) :
  List.length (np_linspace start stop num) = num.
Proof.
  unfold np_linspace. destruct num as [| [| num]]; try reflexivity.
  now rewrite length_map, length_seq.
Qed.

Lemma plt_plot_same_length (x y : list R) :
  List.length x = List.length y -> plt_plot x y = Ok tt.
Proof.
  intros Hlen. unfold plt_plot.
  now apply Nat.eqb_eq in Hlen as ->.
Qed.

Lemma plot_signal_ok (signal : list R) (sr : R) :
  sr <> 0 -> plot_signal signal sr = Ok tt.
Proof.
  intros Hsr. unfold plot_signal. rewrite py_div_nonzero by exact Hsr.
  cbn [bind]. apply plt_plot_same_length. apply np_linspace_length.
Qed.

Section AudioAppExtras.
Variable design : btype -> nat -> list R -> list R * list R.
Variable librosa_load : string -> result (list R * R).

Lemma single_stage_succeeds (signal : list R) (order : nat)
  (cutoff fs : R) (bt : btype) :
  (1 <= order)%nat ->
  bt <> Bandstop -> 0 < fs -> 0 < cutoff < 0.5 * fs ->
  succeeds ('(b, a) <- butter_filter design order cutoff fs bt ;;
            lfilter b a signal).
Proof.
  intros Horder Hbt Hfs Hc.
  rewrite butter_filter_ok;
    [| exact Hbt | lra | now apply normalized_in_range].
  destruct (designed_monic design bt order [normalized cutoff fs] Horder)
    as (b & a1 & t & ->).
  cbn [bind].
  destruct (lfilter_monic b t signal a1) as [out [E _]].
  now exists out.
Qed.

Lemma notch_succeeds (signal : list R) (notch_freq fs quality : R) :
  0 < fs -> quality <> 0 -> 0 <= notch_freq <= 0.5 * fs ->
  succeeds (apply_notch_filter signal notch_freq fs quality).
Proof.
  intros Hfs HQ Hn. unfold apply_notch_filter.
  rewrite py_div_nonzero by lra. cbn [bind].
  assert (Hw : 0 <= notch_freq / (0.5 * fs) <= 1).
  { split.
    - apply Rmult_le_pos; [lra |].
      apply Rlt_le, Rinv_0_lt_compat. lra.
    - apply (Rmult_le_reg_r (0.5 * fs)); [lra |].
      unfold Rdiv. rewrite Rmult_assoc, Rinv_l by lra. lra. }
  destruct (iirnotch_accepts _ quality Hw HQ) as [[b a] E].
  rewrite E. cbn [bind].
  destruct (iirnotch_monic _ _ _ _ E) as (a1 & t & ->).
  destruct (lfilter_monic b t signal a1) as [out [Eo _]]. now exists out.
Qed.

Lemma apply_selected_succeeds (c : controls) (fs : R) (signal : list R) :
  10000 < fs -> sliders_in_range c ->
  succeeds (apply_selected design c fs signal).
Proof.
  intros Hfs (Hhp & Hlp & Hbl & Hbh & Hn). unfold apply_selected.
  assert (S1 : exists s1,
             (if high_pass_var c
              then apply_high_pass design signal (high_pass_scale c) fs
              else Ok signal) = Ok s1).
  { destruct (high_pass_var c); [| eauto].
    apply single_stage_succeeds; [lia | discriminate | lra | lra]. }
  destruct S1 as [s1 ->]. cbn [bind].
  assert (S2 : exists s2,
             (if low_pass_var c
              then apply_low_pass design s1 (low_pass_scale c) fs
              else Ok s1) = Ok s2).
  { destruct (low_pass_var c); [| eauto].
    apply single_stage_succeeds; [lia | discriminate | lra | lra]. }
  destruct S2 as [s2 ->]. cbn [bind].
  assert (S3 : exists s3,
             (if band_pass_var c
              then apply_band_pass design s2 (band_pass_low_scale c)
                     (band_pass_high_scale c) fs
              else Ok s2) = Ok s3).
  { destruct (band_pass_var c); [| eauto].
    destruct (apply_band_pass_valid design s2 (band_pass_low_scale c)
                (band_pass_high_scale c) fs)
      as (b1 & c1 & a1 & b2 & c2 & a2 & lp & _ & ->);
      [lra | apply normalized_in_range; lra
       | apply normalized_in_range; lra |].
    destruct (lfilter_monic b2 a2 lp c2) as [out [E _]]. eauto. }
  destruct S3 as [s3 ->]. cbn [bind].
  assert (S4 : exists s4,
             (if notch_var c
              then apply_notch_filter s3 (notch_scale c) fs 30
              else Ok s3) = Ok s4).
  { destruct (notch_var c); [| eauto].
    apply notch_succeeds; lra. }
  destruct S4 as [s4 ->]. cbn [bind]. now exists s4.
Qed.

(** X17. For audio sampled faster than 10 kHz and sliders inside their
    ranges, [process_audio] never raises, whatever filters are ticked: it
    stores a processed signal of the length of the loaded one and plots. *)
Theorem process_audio_accepts_the_slider_ranges (app : audio_app)
  (c : controls) (audio_signal : list R) (sampling_rate : R) :
  loaded_audio app = Some (audio_signal, sampling_rate) ->
  10000 < sampling_rate ->
  sliders_in_range c ->
  exists processed,
    process_audio design app c
    = ({| loaded_audio := Some (audio_signal, sampling_rate);
          processed_signal := Some processed |}, Ok Plotted)
    /\ List.length processed = List.length audio_signal.
Proof.
  intros Hload Hsr Hrange. unfold process_audio. rewrite Hload.
  destruct (apply_selected_succeeds c sampling_rate audio_signal Hsr Hrange)
    as [processed E].
  rewrite E. exists processed.
  rewrite !plot_signal_ok by lra. cbn [bind]. split; [reflexivity |].
  destruct (chain_filter_like design c sampling_rate)
    as [_ Hlen _ _ _ _].
  now apply Hlen.
Qed.

Lemma normalized_at_least_one (cutoff fs : R) :
  0 < fs -> 0.5 * fs <= cutoff -> 1 <= normalized cutoff fs.
Proof.
  intros Hfs Hc. unfold normalized.
  apply (Rmult_le_reg_r (0.5 * fs)); [lra |].
  unfold Rdiv. rewrite Rmult_assoc, Rinv_l by lra. lra.
Qed.

Lemma single_stage_raises (signal : list R) (order : nat)
  (cutoff fs : R) (bt : btype) :
  0 < fs -> 0.5 * fs <= cutoff ->
  raises ('(b, a) <- butter_filter design order cutoff fs bt ;;
          lfilter b a signal).
Proof.
  intros Hfs Hc.
  destruct (butter_filter_bad design order cutoff fs bt) as [e ->].
  - right. pose proof (normalized_at_least_one cutoff fs Hfs Hc). lra.
  - cbn [bind]. unfold raises. eauto.
Qed.

Lemma band_pass_raises (signal : list R) (lowcut highcut fs : R) :
  0 < fs -> 0.5 * fs <= lowcut \/ 0.5 * fs <= highcut ->
  raises (apply_band_pass design signal lowcut highcut fs).
Proof.
  intros Hfs Hc. unfold apply_band_pass, raises.
  destruct (butter_filter design 4 highcut fs Low) as [[b1 a1] | e1] eqn:E1;
    cbn [bind]; [| eauto].
  destruct (butter_filter design 4 lowcut fs High) as [[b2 a2] | e2] eqn:E2;
    cbn [bind]; [| eauto].
  exfalso. destruct Hc as [Hc | Hc].
  - destruct (butter_filter_bad design 4%nat lowcut fs High) as [e He];
      [| congruence].
    right. pose proof (normalized_at_least_one lowcut fs Hfs Hc). lra.
  - destruct (butter_filter_bad design 4%nat highcut fs Low) as [e He];
      [| congruence].
    right. pose proof (normalized_at_least_one highcut fs Hfs Hc). lra.
Qed.

Lemma notch_raises (signal : list R) (notch_freq fs quality : R) :
  0 < fs -> 0.5 * fs < notch_freq ->
  raises (apply_notch_filter signal notch_freq fs quality).
Proof.
  intros Hfs Hn. unfold apply_notch_filter.
  rewrite py_div_nonzero by lra. cbn [bind].
  destruct (iirnotch_rejects (notch_freq / (0.5 * fs)) quality) as [e ->].
  - right. left.
    apply (Rmult_lt_reg_r (0.5 * fs)); [lra |].
    unfold Rdiv. rewrite Rmult_assoc, Rinv_l by lra. lra.
  - cbn [bind]. unfold raises. eauto.
Qed.

(** X18. A ticked filter whose slider stands at or above the Nyquist
    frequency of the loaded audio (above it, for the notch) makes
    [process_audio] raise, and the attributes stay as they were: no
    processed signal is stored. *)
Theorem process_audio_fails_beyond_nyquist (app : audio_app) (c : controls)
  (audio_signal : list R) (sampling_rate : R) :
  loaded_audio app = Some (audio_signal, sampling_rate) ->
  0 < sampling_rate ->
  (high_pass_var c = true /\ 0.5 * sampling_rate <= high_pass_scale c)
  \/ (low_pass_var c = true /\ 0.5 * sampling_rate <= low_pass_scale c)
  \/ (band_pass_var c = true
      /\ (0.5 * sampling_rate <= band_pass_low_scale c
          \/ 0.5 * sampling_rate <= band_pass_high_scale c))
  \/ (notch_var c = true /\ 0.5 * sampling_rate < notch_scale c) ->
  exists e, process_audio design app c = (app, Raise e).
Proof.
  intros Hload Hsr Hbad. unfold process_audio. rewrite Hload.
  assert (Hraise : raises (apply_selected design c sampling_rate audio_signal)).
  { unfold apply_selected, raises.
    destruct (if high_pass_var c then _ else _) as [s1 | e1] eqn:E1;
      cbn [bind]; [| eauto].
    destruct (if low_pass_var c then _ else _) as [s2 | e2] eqn:E2;
      cbn [bind]; [| eauto].
    destruct (if band_pass_var c then _ else _) as [s3 | e3] eqn:E3;
      cbn [bind]; [| eauto].
    destruct (if notch_var c then _ else _) as [s4 | e4] eqn:E4;
      cbn [bind]; [| eauto].
    exfalso.
    destruct Hbad as [[Hv Hc] | [[Hv Hc] | [[Hv Hc] | [Hv Hc]]]];
      rewrite Hv in *.
    - destruct (single_stage_raises audio_signal 4%nat (high_pass_scale c)
                  sampling_rate High Hsr Hc) as [e He].
      unfold apply_high_pass in E1. congruence.
    - destruct (single_stage_raises s1 4%nat (low_pass_scale c)
                  sampling_rate Low Hsr Hc) as [e He].
      unfold apply_low_pass in E2. congruence.
    - destruct (band_pass_raises s2 (band_pass_low_scale c)
                  (band_pass_high_scale c) sampling_rate Hsr Hc) as [e He].
      congruence.
    - destruct (notch_raises s3 (notch_scale c) sampling_rate 30 Hsr Hc)
        as [e He].
      congruence. }
  destruct Hraise as [e ->]. now exists e.
Qed.

(** X19. Loading never clears the processed signal.  After another file
    is loaded, [play_audio] still plays the signal processed before, at the
    sample rate of the new file; after a load that fails it plays it with
    no sample rate, and [process_audio] asks for a file although one had
    been loaded before. *)
Theorem loading_keeps_the_processed_signal (app : audio_app)
  (file_path : string) (processed : list R) (c : controls) :
  processed_signal app = Some processed ->
  file_path <> ""%string ->
  (forall audio_signal sampling_rate,
      librosa_load file_path = Ok (audio_signal, sampling_rate) ->
      play_audio (fst (app_load_audio librosa_load app file_path))
      = Played processed (Some sampling_rate))
  /\ (forall e,
      librosa_load file_path = Raise e ->
      play_audio (fst (app_load_audio librosa_load app file_path))
      = Played processed None
      /\ snd (process_audio design
                (fst (app_load_audio librosa_load app file_path)) c)
         = Ok (Warning "Please load an audio file first.")).
Proof.
  intros Hp Hpath. apply String.eqb_neq in Hpath.
  unfold app_load_audio, load_audio. rewrite Hpath. split.
  - intros audio_signal sampling_rate ->. cbn. now rewrite Hp.
  - intros e ->. cbn. now rewrite Hp.
Qed.

End AudioAppExtras.

(** ** The PCB application *)

Lemma np_arange_grid_length : List.length (np_arange 0 10 0.01) = 1000%nat.
Proof.
  unfold np_arange. rewrite length_map, length_seq.
  rewrite (Zceil_eq 1000) by lra. reflexivity.
Qed.

Lemma subtract_length (x y : list R) :
  List.length x = List.length y ->
  List.length (np_subtract x y) = List.length x.
Proof.
  revert y. induction x as [| a x IH]; intros [| b y] Hlen; simpl in *;
    try reflexivity; try discriminate.
  f_equal. apply IH. congruence.
Qed.

Lemma add_subtract (x y : list R) :
  List.length x = List.length y -> np.add y (np_subtract x y) = x.
Proof.
  revert y. induction x as [| a x IH]; intros [| b y] Hlen; simpl in *;
    try reflexivity; try discriminate.
  rewrite IH by congruence. f_equal. lra.
Qed.

Lemma process_signal_fft_returns (signal : list R) (fs : R) :
  signal <> [] -> fs <> 0 ->
  exists xf magnitudes,
    process_signal_fft signal fs = Ok (xf, magnitudes)
    /\ List.length xf = (List.length signal / 2)%nat
    /\ List.length magnitudes = (List.length signal / 2)%nat.
Proof.
  intros Hne Hfs. unfold process_signal_fft.
  set (N := List.length signal).
  assert (HNpos : (0 < N)%nat)
    by (unfold N; destruct signal; [congruence | simpl; lia]).
  assert (HN : INR N <> 0) by (apply not_0_INR; lia).
  assert (Hhalf : (N / 2 <= N)%nat) by (apply Nat.Div0.div_le_upper_bound; lia).
  rewrite py_div_nonzero by exact Hfs. cbn [bind].
  assert (Efft : fft signal = Ok (map (dft_coefficient signal) (seq 0 N)))
    by (unfold fft, N; destruct signal; [congruence | reflexivity]).
  rewrite Efft. cbn [bind].
  assert (HT : 1 / fs <> 0)
    by (unfold Rdiv; rewrite Rmult_1_l; now apply Rinv_neq_0_compat).
  destruct (fftfreq_nonneg_half N (1 / fs) HNpos HT)
    as (freqs & -> & Hlen & _).
  cbn [bind]. rewrite py_div_nonzero by exact HN. cbn [bind].
  do 2 eexists. split; [reflexivity |]. split.
  - now apply firstn_length_le.
  - rewrite length_map. apply firstn_length_le.
    now rewrite length_map, length_seq.
Qed.

Lemma process_signal_fft_ok_inv (signal xf magnitudes : list R) (fs : R) :
  process_signal_fft signal fs = Ok (xf, magnitudes) ->
  signal <> []
  /\ List.length xf = (List.length signal / 2)%nat
  /\ List.length magnitudes = (List.length signal / 2)%nat.
Proof.
  intros E.
  assert (Hne : signal <> []).
  { intros ->. destruct (process_signal_fft_empty fs) as [e He]. congruence. }
  split; [exact Hne |].
  assert (Hfs : fs <> 0).
  { intros ->. unfold process_signal_fft in E.
    rewrite py_div_zero in E by reflexivity. discriminate. }
  destruct (process_signal_fft_returns signal fs Hne Hfs)
    as (xf' & m' & E' & H1 & H2).
  rewrite E in E'. injection E' as <- <-. tauto.
Qed.

Section PcbAppExtras.
Variable design : btype -> nat -> list R -> list R * list R.
Context {rng : Type} `{RandomState rng}.

(** What [process_signal] does once the signal and its time axis are
    there. *)
Lemma process_signal_tail (time signal : list R) (filter_type : string)
  (cutoff : R) :
  List.length time = List.length signal ->
  signal <> [] ->
  In filter_type filter_types ->
  valid_filter_spec filter_type cutoff process_signal_fs ->
  exists filtered xf magnitudes,
    apply_filter design signal filter_type cutoff process_signal_fs
    = Ok filtered
    /\ process_signal_fft signal process_signal_fs = Ok (xf, magnitudes)
    /\ List.length filtered = List.length signal
    /\ List.length xf = (List.length signal / 2)%nat
    /\ List.length magnitudes = (List.length signal / 2)%nat
    /\ plt_plot time signal = Ok tt
    /\ plt_plot xf magnitudes = Ok tt
    /\ plt_plot time filtered = Ok tt
    /\ plt_plot time (np_subtract signal filtered) = Ok tt.
Proof.
  intros Htime Hne Hin Hvalid.
  destruct (apply_filter_valid design signal filter_type cutoff
              process_signal_fs Hin Hvalid) as (b & a1 & t & Eb).
  destruct (lfilter_monic b t signal a1) as [filtered [Ef Hflen]].
  rewrite Ef in Eb.
  destruct (process_signal_fft_returns signal process_signal_fs Hne)
    as (xf & magnitudes & Efft & Hxf & Hm).
  { unfold process_signal_fs. lra. }
  exists filtered, xf, magnitudes.
  repeat split; try assumption; apply plt_plot_same_length; try congruence.
  rewrite subtract_length; congruence.
Qed.

(** X20. The synthetic path of [process_signal]: with no CSV loaded, an
    intensity that [add_noise] accepts (not negative for Gaussian noise, of
    a range that does not overflow for impulse noise), a recognised filter
    type and a cutoff below 50 Hz whose quotient by the Nyquist frequency
    is not below the least normal double, so that it is not rounded to
    zero (the band-stop needs no cutoff), the callback returns; the
    signal, the filtered signal and the extracted noise have 1000 samples
    each and the spectrum has 500 entries. *)
Theorem process_signal_synthetic (signal_type noise_type : string)
  (intensity : R) (filter_type : string) (cutoff : R) (g : rng) :
  noise_accepted noise_type intensity ->
  In filter_type filter_types ->
  valid_filter_spec filter_type cutoff process_signal_fs ->
  normalisation_in_range filter_type cutoff process_signal_fs ->
  exists p g',
    process_signal design None signal_type noise_type intensity
      filter_type cutoff g = Ok (p, g')
    /\ List.length (p_time p) = 1000%nat
    /\ List.length (p_signal p) = 1000%nat
    /\ List.length (p_filtered p) = 1000%nat
    /\ List.length (p_noise p) = 1000%nat
    /\ List.length (p_xf p) = 500%nat
    /\ List.length (p_magnitudes p) = 500%nat.
Proof.
  intros Hint Hin Hvalid _. unfold process_signal.
  destruct (add_noise_returns (generate_signal signal_type 5
                                 (np_arange 0 10 0.01))
              noise_type intensity g Hint) as (signal & g' & -> & Hlen).
  rewrite generate_signal_length, np_arange_grid_length in Hlen.
  cbn [bind].
  destruct (process_signal_tail (np_arange 0 10 0.01) signal filter_type
              cutoff) as (filtered & xf & mags & Ef & Efft & Hf & Hxf & Hm
                          & P1 & P2 & P3 & P4); try assumption.
  { now rewrite np_arange_grid_length. }
  { intros ->. discriminate Hlen. }
  rewrite Ef. cbn [bind]. rewrite Efft. cbn [bind].
  rewrite P1. cbn [bind]. rewrite P2. cbn [bind].
  rewrite P3. cbn [bind]. rewrite P4. cbn [bind].
  do 2 eexists. split; [reflexivity |]. cbn.
  rewrite np_arange_grid_length, subtract_length by congruence.
  rewrite Hf, Hxf, Hm, Hlen. repeat split; reflexivity.
Qed.

Lemma process_signal_csv_returns (data : list R)
  (signal_type noise_type : string) (intensity : R) (filter_type : string)
  (cutoff : R) (g : rng) :
  In filter_type filter_types ->
  valid_filter_spec filter_type cutoff process_signal_fs ->
  data <> [] ->
  exists p,
    process_signal design (Some data) signal_type noise_type intensity
      filter_type cutoff g = Ok (p, g)
    /\ p_signal p = data
    /\ List.length (p_time p) = List.length data
    /\ List.length (p_filtered p) = List.length data
    /\ List.length (p_xf p) = (List.length data / 2)%nat.
Proof.
  intros Hin Hvalid Hne. unfold process_signal. cbn [bind].
  destruct (process_signal_tail
              (np_linspace 0 (INR (List.length data) / 100)
                 (List.length data)) data filter_type cutoff)
    as (filtered & xf & mags & Ef & Efft & Hf & Hxf & Hm
        & P1 & P2 & P3 & P4); try assumption.
  { apply np_linspace_length. }
  rewrite Ef. cbn [bind]. rewrite Efft. cbn [bind].
  rewrite P1. cbn [bind]. rewrite P2. cbn [bind].
  rewrite P3. cbn [bind]. rewrite P4. cbn [bind].
  eexists. split; [reflexivity |]. cbn.
  rewrite np_linspace_length. tauto.
Qed.


(** X22. A filter type that [apply_filter] does not know ends
    [process_signal] with [ValueError("Unknown filter type.")], on the CSV
    path and on the synthetic path alike; the menu entries
    ['Butterworth Low-Pass'] and ['Butterworth High-Pass'] are such types.
    On the synthetic path the noise is added first, so this is for an
    intensity that [add_noise] accepts; impulse noise whose range
    overflows ends the callback with the [OverflowError] of [add_noise]
    instead. *)
Theorem process_signal_unsupported_filter (signal_data : option (list R))
  (signal_type noise_type : string) (intensity : R) (filter_type : string)
  (cutoff : R) (g : rng) :
  ~ In filter_type filter_types ->
  ((signal_data = None -> noise_accepted noise_type intensity) ->
   process_signal design signal_data signal_type noise_type intensity
     filter_type cutoff g
   = Raise (ValueError "Unknown filter type."))
  /\ (signal_data = None -> noise_type = "impulse"%string ->
      float_overflow <= Rabs (intensity * 2 - - intensity * 2) ->
      process_signal design signal_data signal_type noise_type intensity
        filter_type cutoff g
      = Raise (OverflowError "Range exceeds valid bounds")).
Proof.
  intros Hn. split.
  - intros Hint. unfold process_signal.
    destruct signal_data as [data |].
    + cbn [bind]. now rewrite apply_filter_unknown.
    + destruct (add_noise_returns (generate_signal signal_type 5
                                     (np_arange 0 10 0.01))
                  noise_type intensity g (Hint eq_refl))
        as (signal & g' & -> & _).
      cbn [bind]. now rewrite apply_filter_unknown.
  - intros -> -> Hbig. unfold process_signal.
    now rewrite add_noise_impulse_overflow.
Qed.

Lemma low_high_rejects_cutoff (signal : list R) (filter_type : string)
  (cutoff : R) :
  In filter_type ["Low-Pass (RC)"; "High-Pass (RC)"]%string ->
  cutoff <= 0 \/ 50 <= cutoff ->
  raises (apply_filter design signal filter_type cutoff process_signal_fs).
Proof.
  intros Hin Hc.
  assert (Hbad : process_signal_fs = 0
                 \/ ~ 0 < normalized cutoff process_signal_fs < 1).
  { right. unfold normalized, process_signal_fs. lra. }
  unfold apply_filter, raises.
  destruct Hin as [<- | [<- | []]]; cbn [String.eqb Ascii.eqb Bool.eqb].
  - rewrite butter_lowpass_is_filter.
    destruct (butter_filter_bad design 5%nat cutoff process_signal_fs Low Hbad)
      as [e ->].
    cbn [bind]. eauto.
  - rewrite butter_highpass_is_filter.
    destruct (butter_filter_bad design 5%nat cutoff process_signal_fs High Hbad)
      as [e ->].
    cbn [bind]. eauto.
Qed.

(** X23. The sample rate of [process_signal] is fixed at 100 Hz, whatever
    the data: with the low-pass or the high-pass filter a cutoff of 50 Hz
    or more, or of 0 or less, ends the callback with an exception. *)
Theorem process_signal_rejects_cutoff (signal_data : option (list R))
  (signal_type noise_type : string) (intensity : R) (filter_type : string)
  (cutoff : R) (g : rng) :
  In filter_type ["Low-Pass (RC)"; "High-Pass (RC)"]%string ->
  cutoff <= 0 \/ 50 <= cutoff ->
  raises (process_signal design signal_data signal_type noise_type intensity
            filter_type cutoff g).
Proof.
  intros Hin Hc. unfold process_signal.
  destruct signal_data as [data |].
  - cbn [bind].
    destruct (low_high_rejects_cutoff data filter_type cutoff Hin Hc)
      as [e ->].
    cbn [bind]. unfold raises. eauto.
  - destruct (add_noise _ noise_type intensity g) as [[signal g'] | e0];
      cbn [bind]; [| unfold raises; eauto].
    destruct (low_high_rejects_cutoff signal filter_type cutoff Hin Hc)
      as [e ->].
    cbn [bind]. unfold raises. eauto.
Qed.

Lemma plt_plot_ok_inv (x y : list R) (u : unit) :
  plt_plot x y = Ok u -> List.length x = List.length y.
Proof.
  unfold plt_plot.
  destruct (List.length x =? List.length y)%nat eqn:E; [| discriminate].
  intros _. now apply Nat.eqb_eq.
Qed.

(** X24. Whenever [process_signal] returns, the extracted noise is what
    the filter removed: the filtered signal plus the noise is the signal,
    sample for sample.  The signal is not empty, the three time-domain
    curves have its length, and the spectrum has half as many entries
    (integer division). *)
Theorem process_signal_decomposition (signal_data : option (list R))
  (signal_type noise_type : string) (intensity : R) (filter_type : string)
  (cutoff : R) (g g' : rng) (p : plots) :
  process_signal design signal_data signal_type noise_type intensity
    filter_type cutoff g = Ok (p, g') ->
  np.add (p_filtered p) (p_noise p) = p_signal p
  /\ p_signal p <> []
  /\ List.length (p_time p) = List.length (p_signal p)
  /\ List.length (p_filtered p) = List.length (p_signal p)
  /\ List.length (p_noise p) = List.length (p_signal p)
  /\ List.length (p_xf p) = (List.length (p_signal p) / 2)%nat
  /\ List.length (p_magnitudes p) = (List.length (p_signal p) / 2)%nat.
Proof.
  unfold process_signal.
  destruct (match signal_data with Some _ => _ | None => _ end)
    as [[[time signal] g1] | e0]; cbn [bind]; [| discriminate].
  destruct (apply_filter design signal filter_type cutoff process_signal_fs)
    as [filtered | e1] eqn:Ef; cbn [bind]; [| discriminate].
  destruct (process_signal_fft signal process_signal_fs)
    as [[xf mags] | e2] eqn:Efft; cbn [bind]; [| discriminate].
  destruct (plt_plot time signal) as [u1 | e3] eqn:P1; cbn [bind];
    [| discriminate].
  destruct (plt_plot xf mags) as [u2 | e4]; cbn [bind]; [| discriminate].
  destruct (plt_plot time filtered) as [u3 | e5]; cbn [bind];
    [| discriminate].
  destruct (plt_plot time (np_subtract signal filtered)) as [u4 | e6];
    cbn [bind]; [| discriminate].
  intros [= <- <-]. cbn.
  apply apply_filter_ok_length in Ef.
  apply process_signal_fft_ok_inv in Efft. destruct Efft as (Hne & Hxf & Hm).
  apply plt_plot_ok_inv in P1.
  split; [apply add_subtract; congruence |].
  split; [exact Hne |]. split; [exact P1 |]. split; [exact Ef |].
  split; [rewrite subtract_length; congruence |]. tauto.
Qed.

End PcbAppExtras.

(** ** The band-stop branch and the spectrum, further *)

Section BandStopExtras.
Variable design : btype -> nat -> list R -> list R * list R.

(** X25. The band-stop branch of [apply_filter] works exactly for sample
    rates above 10 Hz: there it returns, whatever the cutoff argument and
    the signal, and at 10 Hz or below (zero and negative rates included)
    it raises. *)
Theorem band_stop_needs_more_than_ten_hertz (signal : list R)
  (cutoff fs : R) :
  (10 < fs ->
   exists out,
     apply_filter design signal "Band-Stop" cutoff fs = Ok out
     /\ List.length out = List.length signal)
  /\ (fs <= 10 ->
      raises (apply_filter design signal "Band-Stop" cutoff fs)).
Proof.
  split.
  - intros Hfs.
    destruct (apply_filter_valid design signal "Band-Stop" cutoff fs)
      as (b & a1 & t & ->).
    + simpl. tauto.
    + unfold valid_filter_spec. simpl. lra.
    + apply lfilter_monic.
  - intros Hfs. unfold apply_filter. cbn [String.eqb Ascii.eqb Bool.eqb].
    destruct (butter_bandstop_bad design 0.5 5 fs 5%nat) as [e ->].
    + destruct (Rtotal_order fs 0) as [Hneg | [Hz | Hpos]].
      * right. intros [H0 _]. unfold normalized in H0.
        assert (Hinv : / (0.5 * fs) < 0)
          by (apply Rinv_lt_0_compat; lra).
        unfold Rdiv in H0. nra.
      * now left.
      * right. intros (_ & _ & H1).
        pose proof (normalized_at_least_one 5 fs Hpos). lra.
    + cbn [bind]. unfold raises. eauto.
Qed.

End BandStopExtras.

Lemma process_signal_fft_value (signal : list R) (fs : R) :
  signal <> [] -> fs <> 0 ->
  exists freqs,
    fftfreq (List.length signal) (1 / fs) = Ok freqs
    /\ (List.length signal / 2 <= List.length freqs)%nat
    /\ (forall k, (k < List.length signal / 2)%nat ->
          nth k freqs 0
          = INR k * (1 / (INR (List.length signal) * (1 / fs))))
    /\ process_signal_fft signal fs
       = Ok (firstn (List.length signal / 2) freqs,
             map (fun z => 2 / INR (List.length signal) * cabs z)
               (firstn (List.length signal / 2)
                  (map (dft_coefficient signal)
                     (seq 0 (List.length signal))))).
Proof.
  intros Hne Hfs. unfold process_signal_fft.
  set (N := List.length signal).
  assert (HNpos : (0 < N)%nat)
    by (unfold N; destruct signal; [congruence | simpl; lia]).
  assert (HN : INR N <> 0) by (apply not_0_INR; lia).
  rewrite py_div_nonzero by exact Hfs. cbn [bind].
  assert (Efft : fft signal = Ok (map (dft_coefficient signal) (seq 0 N)))
    by (unfold fft, N; destruct signal; [congruence | reflexivity]).
  rewrite Efft. cbn [bind].
  assert (HT : 1 / fs <> 0)
    by (unfold Rdiv; rewrite Rmult_1_l; now apply Rinv_neq_0_compat).
  destruct (fftfreq_nonneg_half N (1 / fs) HNpos HT)
    as (freqs & E & Hlen & Hnth).
  exists freqs. rewrite E. cbn [bind].
  rewrite py_div_nonzero by exact HN. cbn [bind]. auto.
Qed.

Lemma dft_coefficient_scale (c : R) (x : list R) (k : nat) :
  dft_coefficient (map (Rmult c) x) k = cscale c (dft_coefficient x k).
Proof.
  unfold dft_coefficient. rewrite length_map.
  generalize (INR (List.length x)). intros N.
  generalize 0%nat. induction x as [| xn x IH]; intros st; simpl.
  - unfold cscale. simpl. f_equal; lra.
  - rewrite IH. unfold cadd, cscale. simpl. f_equal; lra.
Qed.

Lemma cabs_scale (c : R) (z : complex) :
  cabs (cscale c z) = Rabs c * cabs z.
Proof.
  unfold cabs, cscale. destruct z as [u v]. simpl.
  replace (c * u * (c * u) + c * v * (c * v))
    with (Rsqr c * (u * u + v * v)) by (unfold Rsqr; ring).
  rewrite sqrt_mult; [| apply Rle_0_sqr | nra].
  now rewrite sqrt_Rsqr_abs.
Qed.

(** X26. Scaling the signal by [c] leaves the frequency axis of the
    spectrum as it is and multiplies every magnitude by [|c|]. *)
Theorem spectrum_scales_with_the_signal (c : R) (signal xf magnitudes : list R)
  (fs : R) :
  process_signal_fft signal fs = Ok (xf, magnitudes) ->
  process_signal_fft (map (Rmult c) signal) fs
  = Ok (xf, map (Rmult (Rabs c)) magnitudes).
Proof.
  intros E.
  destruct (process_signal_fft_ok_inv signal xf magnitudes fs E)
    as (Hne & _ & _).
  assert (Hfs : fs <> 0).
  { intros ->. unfold process_signal_fft in E.
    rewrite py_div_zero in E by reflexivity. discriminate. }
  destruct (process_signal_fft_value signal fs Hne Hfs)
    as (freqs & Ef & _ & _ & Ev).
  rewrite Ev in E. injection E as <- <-.
  destruct (process_signal_fft_value (map (Rmult c) signal) fs)
    as (freqs' & Ef' & _ & _ & Ev'); [| exact Hfs |].
  { destruct signal; [congruence | discriminate]. }
  rewrite length_map in Ef', Ev'. rewrite Ef in Ef'.
  injection Ef' as <-. rewrite Ev'. do 2 f_equal.
  rewrite !firstn_map, !map_map. apply map_ext. intros k.
  rewrite dft_coefficient_scale, cabs_scale. ring.
Qed.

Lemma dft_coefficient_zero (x : list R) :
  dft_coefficient x 0 = (fold_right Rplus 0 x, 0).
Proof.
  unfold dft_coefficient. cbn [INR].
  generalize (INR (List.length x)). intros N.
  generalize 0%nat. induction x as [| xn x IH]; intros st; simpl.
  - reflexivity.
  - rewrite IH. unfold cadd, cscale, cis. simpl.
    replace (- (2 * PI * 0 * INR st / N)) with 0 by (unfold Rdiv; ring).
    rewrite cos_0, sin_0. f_equal; lra.
Qed.

(** X27. The first entry of the spectrum of a signal of two samples or
    more is at the frequency 0, and its magnitude is [2 / N] times the
    absolute value of the sum of the samples: twice the absolute mean. *)
Theorem spectrum_first_entry (signal xf magnitudes : list R) (fs : R) :
  (2 <= List.length signal)%nat ->
  process_signal_fft signal fs = Ok (xf, magnitudes) ->
  nth 0 xf 0 = 0
  /\ nth 0 magnitudes 0
     = 2 / INR (List.length signal) * Rabs (fold_right Rplus 0 signal).
Proof.
  intros Hlen E.
  destruct (process_signal_fft_ok_inv signal xf magnitudes fs E)
    as (Hne & _ & _).
  assert (Hfs : fs <> 0).
  { intros ->. unfold process_signal_fft in E.
    rewrite py_div_zero in E by reflexivity. discriminate. }
  destruct (process_signal_fft_value signal fs Hne Hfs)
    as (freqs & _ & Hfl & Hnth & Ev).
  rewrite Ev in E. set (N := List.length signal) in *.
  assert (Exf : xf = firstn (N / 2) freqs) by congruence.
  assert (Em : magnitudes
               = map (fun z => 2 / INR N * cabs z)
                   (firstn (N / 2)
                      (map (dft_coefficient signal) (seq 0 N))))
    by congruence.
  rewrite Exf, Em. clear E Exf Em.
  assert (Hhalf : (0 < N / 2)%nat)
    by (apply Nat.div_str_pos; lia).
  assert (E0 : (0 <? N / 2)%nat = true) by now apply Nat.ltb_lt.
  split.
  - rewrite nth_firstn, E0, Hnth by exact Hhalf. simpl. lra.
  - set (f := fun z => 2 / INR N * cabs z).
    rewrite (nth_indep _ 0 (f (dft_coefficient signal 0))).
    + rewrite (map_nth f), nth_firstn, E0.
      rewrite (map_nth (dft_coefficient signal)), seq_nth by lia.
      unfold f. rewrite dft_coefficient_zero. unfold cabs. simpl.
      replace (fold_right Rplus 0 signal * fold_right Rplus 0 signal + 0 * 0)
        with (Rsqr (fold_right Rplus 0 signal)) by (unfold Rsqr; ring).
      now rewrite sqrt_Rsqr_abs.
    + rewrite length_map, firstn_length_le; [exact Hhalf |].
      rewrite length_map, length_seq.
      apply Nat.Div0.div_le_upper_bound. lia.
Qed.

(** * The further properties at concrete inputs *)

Lemma counter_unit_interval (g0 : nat) : 0 <= fst (next_double g0) <= 1.
Proof.
  simpl. rewrite plus_INR. simpl.
  pose proof (pos_INR g0) as Hg.
  assert (Hpos : 0 < INR g0 + (1 + 1)) by lra.
  split.
  - apply Rlt_le, Rinv_0_lt_compat. exact Hpos.
  - rewrite <- Rinv_1. apply Rinv_le_contravar; lra.
Qed.

Lemma small_intensity_in_range (intensity : R) :
  Rabs intensity <= 1000 ->
  Rabs (intensity * 2 - - intensity * 2) < float_overflow.
Proof.
  intros Hi. replace (intensity * 2 - - intensity * 2) with (4 * intensity)
    by lra.
  rewrite Rabs_mult, (Rabs_right 4) by lra.
  pose proof float_overflow_large. lra.
Qed.

Lemma averaging_low_pass :
  apply_filter averaging_design [1; 2; 3] "Low-Pass (RC)" 2.5 100
  = Ok [0.5; 1.5; 2.5].
Proof.
  unfold apply_filter. cbn [String.eqb Ascii.eqb Bool.eqb].
  rewrite butter_lowpass_is_filter, butter_filter_ok;
    [| discriminate | lra | apply normalized_in_range; lra].
  cbn [bind designed averaging_design design_degree fit fst snd app repeat
         firstn].
  rewrite lfilter_recursive. unfold linear_filter.
  assert (E : Reqb 1 0 = false) by (apply Reqb_false; lra).
  rewrite E. simpl. repeat f_equal; lra.
Qed.

Lemma averaging_audio_low_pass :
  apply_low_pass averaging_design [1; 2; 3] 3000 44100
  = Ok [0.5; 1.5; 2.5].
Proof.
  unfold apply_low_pass.
  rewrite butter_filter_ok;
    [| discriminate | lra | apply normalized_in_range; lra].
  cbn [bind designed averaging_design design_degree fit fst snd app repeat
         firstn].
  rewrite lfilter_recursive. unfold linear_filter.
  assert (E : Reqb 1 0 = false) by (apply Reqb_false; lra).
  rewrite E. simpl. repeat f_equal; lra.
Qed.

(** X2 at the quarter of a period. *)
Lemma square_is_sign_of_sine_witness :
  (1 < List.length [0; 0.25]%R)%nat
  /\ (nth 1 (generate_signal "square" 1 [0; 0.25]) 0 = 0
      <-> nth 1 (generate_signal "sine" 1 [0; 0.25]) 0 = 0).
Proof.
  assert (Hk : (1 < List.length [0; 0.25]%R)%nat) by (simpl; lia).
  split; [exact Hk |].
  exact (proj2 (proj2 (square_is_sign_of_sine 1 [0; 0.25])) 1%nat Hk).
Defined.

(** X1 at the square wave. *)
Lemma generate_signal_amplitude_witness :
  "square"%string <> "sawtooth"%string
  /\ Forall (fun s => -1 <= s <= 1) (generate_signal "square" 5 [0; 0.03]).
Proof.
  assert (Hs : "square"%string <> "sawtooth"%string) by discriminate.
  split; [exact Hs |].
  exact (proj2 (generate_signal_amplitude "square" 5 [0; 0.03]) Hs).
Defined.

(** X4 at a 5 Hz sine. *)
Lemma generate_signal_periodic_witness :
  5 <> 0 /\ ~ In "sine"%string ["square"; "sawtooth"; "modulated"]%string
  /\ generate_signal "sine" 5 (map (fun t => t + 1 / 5) [0; 0.03])
     = generate_signal "sine" 5 [0; 0.03].
Proof.
  assert (Hf : 5 <> 0) by lra.
  assert (Hm : ~ In "sine"%string ["square"; "sawtooth"; "modulated"]%string).
  { simpl. intros [E | [E | [E | []]]]; discriminate E. }
  split; [exact Hf |]. split; [exact Hm |].
  exact (generate_signal_periodic "sine" 5 [0; 0.03] Hf Hm).
Defined.

(** X6 at the square wave. *)
Lemma zero_frequency_is_silent_witness :
  "square"%string <> "modulated"%string
  /\ generate_signal "square" 0 [0; 1] = np.zeros 2.
Proof.
  assert (Hm : "square"%string <> "modulated"%string) by discriminate.
  split; [exact Hm |].
  exact (zero_frequency_is_silent "square" [0; 1] Hm).
Defined.

(** X7 at Gaussian noise of intensity -1 and of intensity 0.5, and at
    impulse noise of intensity 1e308. *)
Lemma add_noise_outcome_witness :
  -1 < 0 /\ noise_accepted "gaussian" 0.5
  /\ float_overflow <= Rabs (1e308 * 2 - - (1e308) * 2)
  /\ add_noise [1; 2] "gaussian" (-1) 0%nat = Raise (ValueError "scale < 0")
  /\ add_noise [1; 2] "impulse" 1e308 0%nat
     = Raise (OverflowError "Range exceeds valid bounds")
  /\ exists out g',
      add_noise [1; 2] "gaussian" 0.5 0%nat = Ok (out, g')
      /\ List.length out = 2%nat.
Proof.
  assert (Hneg : -1 < 0) by lra.
  assert (Hpos : noise_accepted "gaussian" 0.5)
    by (split; [intros _; lra | discriminate]).
  assert (Hbig : float_overflow <= Rabs (1e308 * 2 - - (1e308) * 2))
    by (rewrite Rabs_right; unfold float_overflow; lra).
  split; [exact Hneg |]. split; [exact Hpos |]. split; [exact Hbig |].
  split; [| split].
  - exact (proj1 (add_noise_outcome [1; 2] "gaussian" (-1) 0%nat)
             eq_refl Hneg).
  - exact (proj1 (proj2 (add_noise_outcome [1; 2] "impulse" 1e308 0%nat))
             eq_refl Hbig).
  - exact (proj2 (proj2 (add_noise_outcome [1; 2] "gaussian" 0.5 0%nat))
             Hpos).
Defined.

(** X9 at twenty samples of silence: the one position drawn is 3. *)
Lemma impulse_noise_is_sparse_witness :
  Rabs (1 * 2 - - (1) * 2) < float_overflow
  /\ np.random.randint 20 (20 / 20) 0%nat = Ok ([3%nat], 1%nat)
  /\ exists positions g1 out g',
      np.random.randint (List.length (repeat 0 20))
        (List.length (repeat 0 20) / 20) 0%nat = Ok (positions, g1)
      /\ add_noise (repeat 0 20) "impulse" 1 0%nat = Ok (out, g')
      /\ List.length positions = (List.length (repeat 0 20) / 20)%nat
      /\ Forall (fun i => (i < List.length (repeat 0 20))%nat) positions
      /\ List.length out = List.length (repeat 0 20)
      /\ forall k, ~ In k positions -> nth k out 0 = nth k (repeat 0 20) 0.
Proof.
  assert (Hr : Rabs (1 * 2 - - (1) * 2) < float_overflow)
    by (apply small_intensity_in_range; rewrite Rabs_right; lra).
  split; [exact Hr |]. split; [reflexivity |].
  exact (impulse_noise_is_sparse (repeat 0 20) 1 0%nat Hr).
Defined.

(** X10 at a two-sample signal, with the intensities 3 and 1e308. *)
Lemma impulse_noise_skips_short_signals_witness :
  (List.length [1; 2]%R < 20)%nat
  /\ Rabs (3 * 2 - - (3) * 2) < float_overflow
  /\ float_overflow <= Rabs (1e308 * 2 - - (1e308) * 2)
  /\ add_noise [1; 2] "impulse" 3 0%nat = Ok ([1; 2], 0%nat)
  /\ add_noise [1; 2] "impulse" 1e308 0%nat
     = Raise (OverflowError "Range exceeds valid bounds").
Proof.
  assert (Hs : (List.length [1; 2]%R < 20)%nat) by (simpl; lia).
  assert (Hr : Rabs (3 * 2 - - (3) * 2) < float_overflow)
    by (apply small_intensity_in_range; rewrite Rabs_right; lra).
  assert (Hbig : float_overflow <= Rabs (1e308 * 2 - - (1e308) * 2))
    by (rewrite Rabs_right; unfold float_overflow; lra).
  split; [exact Hs |]. split; [exact Hr |]. split; [exact Hbig |]. split.
  - exact (proj1 (impulse_noise_skips_short_signals [1; 2] 3 0%nat Hs) Hr).
  - exact (proj2 (impulse_noise_skips_short_signals [1; 2] 1e308 0%nat Hs)
             Hbig).
Defined.

(** X11 at a two-sample signal. *)
Lemma interference_is_bounded_witness :
  exists out g',
    add_noise [1; 2] "frequency_interference" 0.5 0%nat = Ok (out, g')
    /\ forall k : nat,
        Rabs (nth k out 0 - nth k [1; 2] 0) <= Rabs 0.5.
Proof.
  destruct (add_noise_returns [1; 2] "frequency_interference" 0.5 0%nat)
    as (out & g' & E & _); [split; discriminate |].
  exists out, g'. split; [exact E |].
  exact (interference_is_bounded [1; 2] out 0.5 0%nat g' E).
Defined.

(** X12 at twenty samples of silence and the counter as random source. *)
Lemma impulse_noise_is_bounded_witness :
  (forall g0 : nat, 0 <= fst (next_double g0) <= 1)
  /\ exists out g',
      add_noise (repeat 0 20) "impulse" 1 0%nat = Ok (out, g')
      /\ forall k : nat,
          Rabs (nth k out 0 - nth k (repeat 0 20) 0) <= 2 * Rabs 1.
Proof.
  split; [exact counter_unit_interval |].
  destruct (add_noise_returns (repeat 0 20) "impulse" 1 0%nat)
    as (out & g' & E & _).
  { split; [discriminate |]. intros _.
    apply small_intensity_in_range. rewrite Rabs_right; lra. }
  exists out, g'. split; [exact E |].
  exact (impulse_noise_is_bounded (repeat 0 20) out 1 0%nat g'
           counter_unit_interval E).
Defined.

(** X13 at the two-tap average: the first two output samples come from
    the first two input samples. *)
Lemma apply_filter_is_filter_like_witness :
  apply_filter averaging_design [1; 2; 3] "Low-Pass (RC)" 2.5 100
  = Ok [0.5; 1.5; 2.5]
  /\ apply_filter averaging_design [1; 2] "Low-Pass (RC)" 2.5 100
     = Ok [0.5; 1.5].
Proof.
  assert (E : apply_filter averaging_design [1; 2; 3] "Low-Pass (RC)" 2.5 100
              = Ok [0.5; 1.5; 2.5])
    by exact averaging_low_pass.
  split; [exact E |].
  exact (fl_causal _ (apply_filter_is_filter_like averaging_design
                        "Low-Pass (RC)" 2.5 100)
           [1; 2; 3] [0.5; 1.5; 2.5] 2%nat E).
Defined.

(** X14 at the two-tap average: a delayed input gives the delayed
    output. *)
Lemma audio_filters_are_filter_like_witness :
  apply_low_pass averaging_design [1; 2; 3] 3000 44100 = Ok [0.5; 1.5; 2.5]
  /\ apply_low_pass averaging_design [0; 1; 2; 3] 3000 44100
     = Ok [0; 0.5; 1.5; 2.5].
Proof.
  assert (E : apply_low_pass averaging_design [1; 2; 3] 3000 44100
              = Ok [0.5; 1.5; 2.5])
    by exact averaging_audio_low_pass.
  split; [exact E |].
  exact (fl_shift _ (proj1 (proj2 (audio_filters_are_filter_like
                                     averaging_design 3000 300 3400 44100)))
           [1; 2; 3] [0.5; 1.5; 2.5] E).
Defined.

(** X15 at the default notch of the audio application. *)
Lemma apply_notch_filter_outcome_witness :
  44100 <> 0 /\ 30 <> 0 /\ 0 <= normalized 1000 44100 <= 1
  /\ exists out,
      apply_notch_filter [1; 2; 3] 1000 44100 30 = Ok out
      /\ List.length out = 3%nat.
Proof.
  assert (Hfs : 44100 <> 0) by lra.
  assert (HQ : 30 <> 0) by lra.
  assert (Hw : 0 <= normalized 1000 44100 <= 1)
    by (unfold normalized; lra).
  split; [exact Hfs |]. split; [exact HQ |]. split; [exact Hw |].
  exact (proj1 (proj2 (apply_notch_filter_outcome [1; 2; 3] 1000 44100 30))
           Hfs HQ Hw).
Defined.

(** X16 at every filter ticked, on CD-rate audio. *)
Lemma apply_selected_is_filter_like_witness :
  exists processed,
    apply_selected averaging_design all_filters_ticked 44100 [1; 2; 3]
    = Ok processed
    /\ List.length processed = 3%nat.
Proof.
  destruct (apply_selected_succeeds averaging_design all_filters_ticked 44100
              [1; 2; 3]) as [processed E].
  - lra.
  - unfold sliders_in_range, all_filters_ticked. simpl. lra.
  - exists processed. split; [exact E |].
    exact (proj2 (apply_selected_is_filter_like averaging_design
                    all_filters_ticked 44100) [1; 2; 3] processed E).
Defined.

(** X17 at every filter ticked, on CD-rate audio. *)
Lemma process_audio_accepts_the_slider_ranges_witness :
  10000 < 44100 /\ sliders_in_range all_filters_ticked
  /\ exists processed,
      process_audio averaging_design
        {| loaded_audio := Some ([1; 2; 3], 44100);
           processed_signal := None |} all_filters_ticked
      = ({| loaded_audio := Some ([1; 2; 3], 44100);
            processed_signal := Some processed |}, Ok Plotted)
      /\ List.length processed = 3%nat.
Proof.
  assert (Hsr : 10000 < 44100) by lra.
  assert (Hrange : sliders_in_range all_filters_ticked)
    by (unfold sliders_in_range, all_filters_ticked; simpl; lra).
  split; [exact Hsr |]. split; [exact Hrange |].
  exact (process_audio_accepts_the_slider_ranges averaging_design
           {| loaded_audio := Some ([1; 2; 3], 44100);
              processed_signal := None |}
           all_filters_ticked [1; 2; 3] 44100 eq_refl Hsr Hrange).
Defined.

(** X18 at telephone-rate audio with the low-pass slider at 5000 Hz. *)
Lemma process_audio_fails_beyond_nyquist_witness :
  0 < 8000 /\ 0.5 * 8000 <= 5000
  /\ exists e,
      process_audio averaging_design
        {| loaded_audio := Some ([1; 2; 3], 8000);
           processed_signal := None |}
        {| high_pass_var := false; low_pass_var := true;
           band_pass_var := false; notch_var := false;
           high_pass_scale := 500; low_pass_scale := 5000;
           band_pass_low_scale := 300; band_pass_high_scale := 3400;
           notch_scale := 1000 |}
      = ({| loaded_audio := Some ([1; 2; 3], 8000);
            processed_signal := None |}, Raise e).
Proof.
  assert (Hsr : 0 < 8000) by lra.
  assert (Hc : 0.5 * 8000 <= 5000) by lra.
  split; [exact Hsr |]. split; [exact Hc |].
  apply (process_audio_fails_beyond_nyquist averaging_design
           {| loaded_audio := Some ([1; 2; 3], 8000);
              processed_signal := None |}
           {| high_pass_var := false; low_pass_var := true;
              band_pass_var := false; notch_var := false;
              high_pass_scale := 500; low_pass_scale := 5000;
              band_pass_low_scale := 300; band_pass_high_scale := 3400;
              notch_scale := 1000 |}
           [1; 2; 3] 8000 eq_refl Hsr).
  right. left. split; [reflexivity | exact Hc].
Defined.

(** X19 at a processed signal of three samples and a second file of two
    samples at 8 kHz. *)
Lemma loading_keeps_the_processed_signal_witness :
  "speech.wav"%string <> ""%string
  /\ play_audio
       (fst (app_load_audio one_file_loader
               {| loaded_audio := Some ([1; 2; 3], 44100);
                  processed_signal := Some [0.5; 1.5; 2.5] |}
               "speech.wav"))
     = Played [0.5; 1.5; 2.5] (Some 8000).
Proof.
  assert (Hp : "speech.wav"%string <> ""%string) by discriminate.
  split; [exact Hp |].
  exact (proj1 (loading_keeps_the_processed_signal averaging_design
                  one_file_loader
                  {| loaded_audio := Some ([1; 2; 3], 44100);
                     processed_signal := Some [0.5; 1.5; 2.5] |}
                  "speech.wav" [0.5; 1.5; 2.5] default_controls
                  eq_refl Hp)
           [1; 2] 8000 eq_refl).
Defined.

(** X20 at the defaults of the PCB application. *)
Lemma process_signal_synthetic_witness :
  noise_accepted "gaussian" 0.5
  /\ In "Low-Pass (RC)"%string filter_types
  /\ valid_filter_spec "Low-Pass (RC)" 2.5 process_signal_fs
  /\ normalisation_in_range "Low-Pass (RC)" 2.5 process_signal_fs
  /\ exists p g',
      process_signal averaging_design None "sine" "gaussian" 0.5
        "Low-Pass (RC)" 2.5 0%nat = Ok (p, g')
      /\ List.length (p_time p) = 1000%nat
      /\ List.length (p_signal p) = 1000%nat
      /\ List.length (p_filtered p) = 1000%nat
      /\ List.length (p_noise p) = 1000%nat
      /\ List.length (p_xf p) = 500%nat
      /\ List.length (p_magnitudes p) = 500%nat.
Proof.
  assert (Hint : noise_accepted "gaussian" 0.5)
    by (split; [intros _; lra | discriminate]).
  assert (Hin : In "Low-Pass (RC)"%string filter_types) by (simpl; tauto).
  assert (Hvalid : valid_filter_spec "Low-Pass (RC)" 2.5 process_signal_fs)
    by (unfold valid_filter_spec, process_signal_fs; simpl; lra).
  assert (Hnormal : normalisation_in_range "Low-Pass (RC)" 2.5
                      process_signal_fs)
    by (unfold normalisation_in_range, normalized, process_signal_fs,
          smallest_normal; split; [| intros _]; lra).
  split; [exact Hint |]. split; [exact Hin |]. split; [exact Hvalid |].
  split; [exact Hnormal |].
  exact (process_signal_synthetic averaging_design "sine" "gaussian" 0.5
           "Low-Pass (RC)" 2.5 0%nat Hint Hin Hvalid Hnormal).
Defined.


(** X22 at a menu entry of the PCB application. *)
Lemma process_signal_unsupported_filter_witness :
  ~ In "Butterworth Low-Pass"%string filter_types
  /\ noise_accepted "impulse" 0.5
  /\ process_signal averaging_design None "sine" "impulse" 0.5
       "Butterworth Low-Pass" 2.5 0%nat
     = Raise (ValueError "Unknown filter type.").
Proof.
  assert (Hint : noise_accepted "impulse" 0.5).
  { split; [discriminate |]. intros _.
    apply small_intensity_in_range. rewrite Rabs_right; lra. }
  split; [exact butterworth_entry_unknown |]. split; [exact Hint |].
  exact (proj1 (process_signal_unsupported_filter averaging_design None
                  "sine" "impulse" 0.5 "Butterworth Low-Pass" 2.5 0%nat
                  butterworth_entry_unknown) (fun _ => Hint)).
Defined.

(** X23 at a cutoff of 60 Hz on an uploaded column. *)
Lemma process_signal_rejects_cutoff_witness :
  In "Low-Pass (RC)"%string ["Low-Pass (RC)"; "High-Pass (RC)"]%string
  /\ (60 <= 0 \/ 50 <= 60)
  /\ raises (process_signal averaging_design (Some [1; 2; 3; 4]) "sine"
               "gaussian" 0.5 "Low-Pass (RC)" 60 0%nat).
Proof.
  assert (Hin : In "Low-Pass (RC)"%string
                  ["Low-Pass (RC)"; "High-Pass (RC)"]%string)
    by (simpl; tauto).
  assert (Hc : 60 <= 0 \/ 50 <= 60) by (right; lra).
  split; [exact Hin |]. split; [exact Hc |].
  exact (process_signal_rejects_cutoff averaging_design (Some [1; 2; 3; 4])
           "sine" "gaussian" 0.5 "Low-Pass (RC)" 60 0%nat Hin Hc).
Defined.

(** X24 at a column of four samples. *)
Lemma process_signal_decomposition_witness :
  exists p,
    process_signal averaging_design (Some [1; 2; 3; 4]) "sine" "gaussian"
      0.5 "Low-Pass (RC)" 2.5 0%nat = Ok (p, 0%nat)
    /\ np.add (p_filtered p) (p_noise p) = p_signal p
    /\ List.length (p_noise p) = List.length (p_signal p).
Proof.
  destruct (process_signal_csv_returns averaging_design [1; 2; 3; 4] "sine"
              "gaussian" 0.5 "Low-Pass (RC)" 2.5 0%nat)
    as (p & E & _).
  - simpl. tauto.
  - unfold valid_filter_spec, process_signal_fs. simpl. lra.
  - discriminate.
  - exists p. split; [exact E |].
    destruct (process_signal_decomposition averaging_design
                (Some [1; 2; 3; 4]) "sine" "gaussian" 0.5 "Low-Pass (RC)"
                2.5 0%nat 0%nat p E) as (Hadd & _ & _ & _ & Hn & _).
    split; [exact Hadd | exact Hn].
Defined.

(** X25 at 100 Hz and at 8 Hz. *)
Lemma band_stop_needs_more_than_ten_hertz_witness :
  10 < 100 /\ 8 <= 10
  /\ (exists out,
         apply_filter averaging_design [1; 2; 3] "Band-Stop" 2.5 100 = Ok out
         /\ List.length out = 3%nat)
  /\ raises (apply_filter averaging_design [1; 2; 3] "Band-Stop" 2.5 8).
Proof.
  assert (H100 : 10 < 100) by lra.
  assert (H8 : 8 <= 10) by lra.
  split; [exact H100 |]. split; [exact H8 |]. split.
  - exact (proj1 (band_stop_needs_more_than_ten_hertz averaging_design
                    [1; 2; 3] 2.5 100) H100).
  - exact (proj2 (band_stop_needs_more_than_ten_hertz averaging_design
                    [1; 2; 3] 2.5 8) H8).
Defined.

(** X26 at a constant pair scaled by -3. *)
Lemma spectrum_scales_with_the_signal_witness :
  process_signal_fft [1; 1] 100 = Ok ([0], [2])
  /\ process_signal_fft (map (Rmult (-3)) [1; 1]) 100
     = Ok ([0], map (Rmult (Rabs (-3))) [2]).
Proof.
  split; [exact spectrum_of_constant_pair |].
  exact (spectrum_scales_with_the_signal (-3) [1; 1] [0] [2] 100
           spectrum_of_constant_pair).
Defined.

(** X27 at a constant pair. *)
Lemma spectrum_first_entry_witness :
  (2 <= List.length [1; 1]%R)%nat
  /\ nth 0 [0] 0 = 0
  /\ nth 0 [2] 0 = 2 / INR 2 * Rabs (fold_right Rplus 0 [1; 1]).
Proof.
  assert (Hlen : (2 <= List.length [1; 1]%R)%nat) by (simpl; lia).
  split; [exact Hlen |].
  exact (spectrum_first_entry [1; 1] [0] [2] 100 Hlen
           spectrum_of_constant_pair).
Defined.
